(** * Reflect (iCODE bot): reminder scheduler and message relay

    A shallow embedding of [src/bot.py] (class [ICodeBot]): the startup
    delay of the bump reminder ([on_ready]), the reminder timer
    ([on_bump_done]), the message dispatcher ([on_message]) and the
    animated-emoji relay ([_animated_emojis]).

    Python strings are [string]s (a character is a code point below 256),
    integers and identifiers are [Z], a [datetime] is its number of
    microseconds on the time line, a [float] is the fraction it stands
    for, each operation rounded to the nearest double.  A coroutine is a finite tree of
    requests made to the outside world ([Task]); an exception raised by an
    awaited call is re-raised at the [await], as Python does.  A run is
    one activation of a handler on its own: between its calls the state
    is changed by nobody else. *)

From Stdlib Require Import ZArith List String Ascii Bool Lia.
Import ListNotations.

Local Open Scope string_scope.
Local Open Scope Z_scope.

(* ===================================================================== *)
(** ** Python [str] operations used by the bot *)
(* ===================================================================== *)

Module PyStr.

(** [str.isspace] on one character, for code points below 256: TAB..CR,
    FS..US, SPACE, NEL and NBSP. *)
Definition isspace (c : ascii) : bool :=
  let n := N_of_ascii c in
  ((9 <=? n) && (n <=? 13) || (28 <=? n) && (n <=? 32)
   || (n =? 133) || (n =? 160))%N.

Definition is_empty (s : string) : bool :=
  match s with EmptyString => true | String _ _ => false end.

(** [s + c] for one character [c]. *)
Definition snoc (s : string) (c : ascii) : string := s ++ String c EmptyString.

(** [str.split()] without argument: the maximal runs of non-space
    characters, in order.  [cur] is the word being read. *)
Fixpoint split_from (cur : string) (s : string) : list string :=
  match s with
  | EmptyString => if is_empty cur then [] else [cur]
  | String c s' =>
      if isspace c
      then (if is_empty cur then split_from EmptyString s'
            else cur :: split_from EmptyString s')
      else split_from (snoc cur c) s'
  end.

Definition split (s : string) : list string := split_from EmptyString s.

(** [str.replace(old, new)]: the occurrences of [old] are found from the
    left and do not overlap; the inserted text is not scanned again.
    [skip] counts the characters of the current occurrence still to drop. *)
Fixpoint replace_from (skip : nat) (old new s : string) : string :=
  match s with
  | EmptyString => EmptyString
  | String c s' =>
      match skip with
      | S k => replace_from k old new s'
      | O =>
          if prefix old s
          then new ++ replace_from (Nat.pred (String.length old)) old new s'
          else String c (replace_from O old new s')
      end
  end.

(** With an empty [old] Python inserts [new] before every character and
    at the end. *)
Fixpoint intersperse (new s : string) : string :=
  match s with
  | EmptyString => new
  | String c s' => new ++ String c (intersperse new s')
  end.

Definition replace (old new s : string) : string :=
  if is_empty old then intersperse new s else replace_from O old new s.

(** [s.count(c)] for a one-character needle. *)
Fixpoint count_char (c : ascii) (s : string) : Z :=
  match s with
  | EmptyString => 0
  | String d s' => (if Ascii.eqb c d then 1 else 0) + count_char c s'
  end.

(** [needle in s] (substring test). *)
Fixpoint contains (needle s : string) : bool :=
  prefix needle s ||
  match s with
  | EmptyString => false
  | String _ s' => contains needle s'
  end.

(** [s[-1]], when [s] is not empty. *)
Fixpoint last_char (s : string) : option ascii :=
  match s with
  | EmptyString => None
  | String c EmptyString => Some c
  | String _ s' => last_char s'
  end.

(** [s[0]], when [s] is not empty. *)
Definition first_char (s : string) : option ascii :=
  match s with EmptyString => None | String c _ => Some c end.

Fixpoint drop_last (s : string) : string :=
  match s with
  | EmptyString => EmptyString
  | String _ EmptyString => EmptyString
  | String c s' => String c (drop_last s')
  end.

(** [s[1:-1]]. *)
Definition strip_ends (s : string) : string :=
  match s with
  | EmptyString => EmptyString
  | String _ s' => drop_last s'
  end.

(** [w in l] for a list of strings. *)
Definition mem (w : string) (l : list string) : bool :=
  existsb (String.eqb w) l.

End PyStr.

(* ===================================================================== *)
(** ** Python [float] arithmetic *)
(* ===================================================================== *)

Module Double.

(** A [float] that is a number: the fraction [num / den], with [den > 0]. *)
Record frac := { num : Z; den : Z }.

(** The integer nearest to [n / d], the even one of two that are equally
    near ([0 <= n], [0 < d]). *)
Definition round_half_even (n d : Z) : Z :=
  let fl := n / d in
  let r := n mod d in
  if 2 * r <? d then fl
  else if d <? 2 * r then fl + 1
  else if Z.even fl then fl else fl + 1.

(** The [L] with [2^L <= p / q < 2^(L+1)] ([0 < p], [0 < q]). *)
Definition ilog2 (p q : Z) : Z :=
  let L := Z.log2 p - Z.log2 q in
  if (if 0 <=? L then q * 2 ^ L <=? p else q <=? p * 2 ^ (- L)) then L else L - 1.

(** The double nearest to [p / q], for [0 < p] and [0 < q]: 53 binary
    digits, the last of weight [2^e], with [e] not below -1074.  There is
    no overflow below [2^1024], which no value of the bot reaches. *)
Definition round_pos (p q : Z) : frac :=
  let e := Z.max (ilog2 p q - 52) (-1074) in
  if 0 <=? e then {| num := round_half_even p (q * 2 ^ e) * 2 ^ e; den := 1 |}
  else {| num := round_half_even (p * 2 ^ (- e)) q; den := 2 ^ (- e) |}.

(** The double nearest to [p / q], ties to even: what the division of two
    [int]s and the subtraction of two [float]s give for the exact result
    [p / q]. *)
Definition round (p q : Z) : frac :=
  if p =? 0 then {| num := 0; den := 1 |}
  else if 0 <? p then round_pos p q
  else let r := round_pos (- p) q in {| num := - num r; den := den r |}.

(** [x >= n] for a [float] [x] and an [int] [n]. *)
Definition ge_int (x : frac) (n : Z) : bool := n * den x <=? num x.

(** [n - x] for an [int] [n] and a [float] [x]. *)
Definition int_sub (n : Z) (x : frac) : frac :=
  round (n * den x - num x) (den x).

(** [int(x)]: toward zero. *)
Definition to_int (x : frac) : Z := Z.quot (num x) (den x).

End Double.

(* ===================================================================== *)
(** ** The startup delay of the reminder ([on_ready], lines 84-88) *)
(* ===================================================================== *)

Module Delay.

(** Microseconds in a second; a [datetime] and a [timedelta] count
    microseconds. *)
Definition us : Z := 1000000.

(** The bump period in seconds, the literal [7200] of the source. *)
Definition period : Z := 7200.

(** The microseconds from [datetime.min] to the end of [datetime.max]:
    two [datetime]s are less than that apart. *)
Definition span : Z := 315537897600000000.

(** [timedelta.total_seconds()]: the microseconds divided by [10**6], as
    a [float]. *)
Definition total_seconds (delta : Z) : Double.frac := Double.round delta us.

(** [delta = (now - previous_bump_time).total_seconds()],
    [delay = 0 if delta >= 7200 else (7200 - delta)], then [int(delay)]. *)
Definition initial_delay (now previous_bump_time : Z) : Z :=
  let delta := total_seconds (now - previous_bump_time) in
  if Double.ge_int delta period then 0
  else Double.to_int (Double.int_sub period delta).

End Delay.

(* ===================================================================== *)
(** ** Discord objects, exceptions and coroutines *)
(* ===================================================================== *)

Inductive Exn : Type :=
| AttributeError   (* attribute of [None], or an emoji name that is not there *)
| TypeError
| IndexError
| HTTPException.   (* a failed call to the platform: Forbidden, NotFound, ... *)

Inductive Result (A : Type) : Type :=
| Ok (a : A)
| Err (e : Exn).
Arguments Ok {A} a.
Arguments Err {A} e.

Record Channel := { channel_id : Z }.
Record Role := { role_id : Z; role_mention : string }.

Record User := {
  user_id : Z;
  display_name : string;
  display_avatar : string          (* the asset, as its URL *)
}.

Record Webhook := {
  webhook_id : Z;
  webhook_user : Z                 (* [webhook.user.id] *)
}.

Record Embed := {
  embed_title : string;
  embed_description : option string;
  embed_color : Z
}.

(** The fields of a [Message] the handlers read.  Its [content], which
    [_animated_emojis] assigns, lives in the [State]. *)
Record Message := {
  message_id : Z;
  message_channel : Channel;
  message_author : User;
  message_webhook_id : option Z;
  message_embeds : list Embed
}.

Definition channel_eqb (a b : Channel) : bool := channel_id a =? channel_id b.

(** Calls to the outside world.  [Now] and [Dispatch] are synchronous;
    the others are awaited. *)
Inductive Request : Type :=
| Now
| Sleep (delay : Z)
| Dispatch (event : string) (arg : Z)
| ChangePresence (status : option string) (activity : string)
| ChannelSend (ch : Channel) (text : string) (embed : Embed)
| ChannelWebhooks (ch : Channel)
| AvatarRead (avatar : string)
| CreateWebhook (ch : Channel) (name avatar reason : string)
| WebhookSend (w : Webhook) (text username avatar_url : string)
| MessageDelete (message : Z).

(** What a call gives back.  A call to the platform can fail. *)
Definition Reply (q : Request) : Type :=
  match q with
  | Now => Z
  | Sleep _ => unit
  | Dispatch _ _ => unit
  | ChangePresence _ _ => Result unit
  | ChannelSend _ _ _ => Result unit
  | ChannelWebhooks _ => Result (list Webhook)
  | AvatarRead _ => Result string
  | CreateWebhook _ _ _ _ => Result Webhook
  | WebhookSend _ _ _ _ => Result unit
  | MessageDelete _ => Result unit
  end.

(** The mutable attributes the handlers touch. *)
Record State := {
  MAINTENANCE_MODE : bool;
  MAINTENANCE_CHANNEL : option Channel;
  running : bool;                  (* [self.bump_timer.running] *)
  bump_time : option Z;            (* the record kept by [BumpTimer] *)
  content : string                 (* [message.content] *)
}.

Definition set_running (b : bool) (s : State) : State :=
  {| MAINTENANCE_MODE := MAINTENANCE_MODE s;
     MAINTENANCE_CHANNEL := MAINTENANCE_CHANNEL s;
     running := b;
     bump_time := bump_time s;
     content := content s |}.

Definition set_content (c : string) (s : State) : State :=
  {| MAINTENANCE_MODE := MAINTENANCE_MODE s;
     MAINTENANCE_CHANNEL := MAINTENANCE_CHANNEL s;
     running := running s;
     bump_time := bump_time s;
     content := c |}.

Definition set_maintenance_channel (c : option Channel) (s : State) : State :=
  {| MAINTENANCE_MODE := MAINTENANCE_MODE s;
     MAINTENANCE_CHANNEL := c;
     running := running s;
     bump_time := bump_time s;
     content := content s |}.

(** Modelled from the spec: [BumpTimer], whose module
    [utils/bump_timer.py] is missing.  The Timestamp Store keeps one
    timestamp, [get() -> timestamp | absent] and [set(timestamp)]; a new
    timer is idle. *)
Definition get_bump_time (s : State) : option Z := bump_time s.

Definition update_bump_time (t : Z) (s : State) : State :=
  {| MAINTENANCE_MODE := MAINTENANCE_MODE s;
     MAINTENANCE_CHANNEL := MAINTENANCE_CHANNEL s;
     running := running s;
     bump_time := Some t;
     content := content s |}.

Definition new_bump_timer (s : State) : State := set_running false s.

(** A coroutine: what it does until it returns or raises. *)
Inductive Task (A : Type) : Type :=
| Return (a : A)
| Raise (e : Exn)
| Read (k : State -> Task A)
| Write (s : State) (k : Task A)
| Call (q : Request) (k : Reply q -> Task A).
Arguments Return {A} a.
Arguments Raise {A} e.
Arguments Read {A} k.
Arguments Write {A} s k.
Arguments Call {A} q k.

Fixpoint bind {A B : Type} (t : Task A) (f : A -> Task B) : Task B :=
  match t with
  | Return a => f a
  | Raise e => Raise e
  | Read k => Read (fun s => bind (k s) f)
  | Write s k => Write s (bind k f)
  | Call q k => Call q (fun r => bind (k r) f)
  end.

Declare Scope task_scope.
Delimit Scope task_scope with task.
Notation "x <- t ;; u" := (bind t (fun x => u))
  (at level 61, t at next level, right associativity) : task_scope.
Notation "t ;; u" := (bind t (fun _ => u))
  (at level 61, right associativity) : task_scope.
Local Open Scope task_scope.

Definition modify (f : State -> State) : Task unit :=
  Read (fun s => Write (f s) (Return tt)).

(** A synchronous call. *)
Definition call (q : Request) : Task (Reply q) := Call q Return.

(** [await]: the value of the call, or its exception raised here.  No
    [await] of the bot stands inside a [try]. *)
Definition lift {A : Type} (r : Result A) : Task A :=
  match r with Ok a => Return a | Err e => Raise e end.

(** [x.attr] where [x] may be [None]. *)
Definition attr {A : Type} (o : option A) : Task A :=
  match o with Some a => Return a | None => Raise AttributeError end.

(** The outside world: the reply to each call. *)
Definition World : Type := forall q : Request, Reply q.

(** One activation of a coroutine, run to its end: how it ended, the
    state it left, and each call it made with the state at that moment. *)
Record Run (A : Type) := {
  outcome : Result A;
  final : State;
  trace : list (State * Request)
}.
Arguments outcome {A} r.
Arguments final {A} r.
Arguments trace {A} r.

Fixpoint run_from {A : Type} (w : World) (t : Task A) (s : State)
    (tr : list (State * Request)) : Run A :=
  match t with
  | Return a => {| outcome := Ok a; final := s; trace := tr |}
  | Raise e => {| outcome := Err e; final := s; trace := tr |}
  | Read k => run_from w (k s) s tr
  | Write s' k => run_from w k s' tr
  | Call q k => run_from w (k (w q)) s (tr ++ [(s, q)])
  end.

Definition run {A : Type} (w : World) (t : Task A) (s : State) : Run A :=
  run_from w t s [].

(** The calls of a run, without the states. *)
Definition calls {A : Type} (r : Run A) : list Request := map snd (trace r).

(* ===================================================================== *)
(** ** The bot *)
(* ===================================================================== *)

(** What the handlers take from elsewhere: the identifiers of
    [utils/constants.py], the colour of [utils/color.py], the caches of
    the bot, and the emoji group of [utils/emoji.py].  [get_emoji] is
    [EmojiGroup.get_emoji]: [None] stands for the [AttributeError] that
    [_animated_emojis] catches, raised for a name that is not there;
    [emoji_str] is [str(emoji)].  An emoji is a true value in a test. *)
Record Config (Emoji : Type) := {
  TERMINAL_CHANNEL_ID : Z;
  MAINTENANCE_CHANNEL_ID : Z;
  BUMPER_ROLE_ID : Z;
  DISBOARD_ID : Z;
  GOLD : Z;
  self_user_id : Z;                           (* [self.user.id] *)
  get_channel : Z -> option Channel;          (* [self.get_channel] *)
  get_role : Channel -> Z -> option Role;     (* [channel.guild.get_role] *)
  get_emoji : string -> option Emoji;
  emoji_str : Emoji -> string
}.
Arguments TERMINAL_CHANNEL_ID {Emoji} c.
Arguments MAINTENANCE_CHANNEL_ID {Emoji} c.
Arguments BUMPER_ROLE_ID {Emoji} c.
Arguments DISBOARD_ID {Emoji} c.
Arguments GOLD {Emoji} c.
Arguments self_user_id {Emoji} c.
Arguments get_channel {Emoji} c _.
Arguments get_role {Emoji} c _ _.
Arguments get_emoji {Emoji} c _.
Arguments emoji_str {Emoji} c _.

(** The local variables of the loop of [_animated_emojis]: the text of
    the message, [temp], [emoji], and (not in the source) the names
    [get_emoji] has been called with so far. *)
Record Scan (Emoji : Type) := {
  text : string;
  temp : list string;
  emoji : option Emoji;
  lookups : list string
}.
Arguments text {Emoji} s.
Arguments temp {Emoji} s.
Arguments emoji {Emoji} s.
Arguments lookups {Emoji} s.

(** [word[0] == word[-1] == ":"]; a word of [split()] is never empty. *)
Definition wrapped (word : string) : bool :=
  match PyStr.first_char word, PyStr.last_char word with
  | Some a, Some b => Ascii.eqb a b && Ascii.eqb b ":"
  | _, _ => false
  end.

Section Bot.

Variable Emoji : Type.
Variable cfg : Config Emoji.

(** Line 260: the test that guards the lookup. *)
Definition candidate (word : string) (tmp : list string) : bool :=
  wrapped word && (2 <? Z.of_nat (String.length word)) && negb (PyStr.mem word tmp).

(** Lines 258-275: the body of the loop, for one word. *)
Definition scan_word (st : Scan Emoji) (word : string) : Scan Emoji :=
  if candidate word (temp st) then
    let name := PyStr.strip_ends word in
    match get_emoji cfg name with
    | Some e =>
        {| text := PyStr.replace word (emoji_str cfg e) (text st);
           temp := temp st ++ [word];
           emoji := Some e;
           lookups := lookups st ++ [name] |}
    | None =>
        {| text := text st;
           temp := temp st;
           emoji := emoji st;
           lookups := lookups st ++ [name] |}
    end
  else st.

Definition scan_start (c : string) : Scan Emoji :=
  {| text := c; temp := []; emoji := None; lookups := [] |}.

(** Lines 253-275: the words are those of the message as it came. *)
Definition scan (c : string) : Scan Emoji :=
  fold_left scan_word (PyStr.split c) (scan_start c).

(** Lines 280-299: the webhook of the channel that belongs to the bot, or
    a new one. *)
Definition own_webhook (ws : list Webhook) : option Webhook :=
  find (fun w => webhook_user w =? self_user_id cfg) ws.

Definition get_or_create_webhook (message : Message) : Task Webhook :=
  r <- call (ChannelWebhooks (message_channel message)) ;;
  webhooks <- lift r ;;
  match own_webhook webhooks with
  | Some webhook => Return webhook
  | None =>
      r <- call (AvatarRead (display_avatar (message_author message))) ;;
      avatar <- lift r ;;
      r <- call (CreateWebhook (message_channel message) "iCODE-BOT" avatar
                   "Animated Emoji Usage") ;;
      lift r
  end.

(** Lines 245-308. *)
Definition _animated_emojis (message : Message) : Task unit :=
  Read (fun s =>
    let st := scan (content s) in
    Write (set_content (text st) s)
      match emoji st with
      | None => Return tt
      | Some _ =>
          webhook <- get_or_create_webhook message ;;
          r <- call (WebhookSend webhook (text st)
                       (display_name (message_author message))
                       (display_avatar (message_author message))) ;;
          lift r ;;
          r <- call (MessageDelete (message_id message)) ;;
          lift r
      end).

(** [if message.webhook_id:] *)
Definition has_webhook_id (message : Message) : bool :=
  match message_webhook_id message with
  | Some i => negb (i =? 0)
  | None => false
  end.

(** Lines 228-229. *)
Definition outside_maintenance (s : State) (message : Message) : bool :=
  MAINTENANCE_MODE s &&
  match MAINTENANCE_CHANNEL s with
  | Some c => negb (channel_eqb (message_channel message) c)
  | None => true
  end.

(** Lines 236-238. *)
Definition bump_confirmation (message : Message) : Task unit :=
  match message_embeds message with
  | [] => Raise IndexError
  | e :: _ =>
      match embed_description e with
      | None => Raise TypeError
      | Some d =>
          if PyStr.contains "Bump done" d then
            now <- call Now ;;
            modify (update_bump_time now) ;;
            call (Dispatch "bump_done" 7200)
          else Return tt
      end
  end.

(** Lines 219-243. *)
Definition on_message (message : Message) : Task unit :=
  Read (fun s =>
    if outside_maintenance s message then Return tt
    else if has_webhook_id message then
      (if user_id (message_author message) =? DISBOARD_ID cfg
       then bump_confirmation message
       else Return tt)
    else if 1 <? PyStr.count_char ":" (content s) then _animated_emojis message
    else Return tt).

Definition reminder_embed (reminder : Emoji) : Embed :=
  {| embed_title := "Bump Reminder " ++ emoji_str cfg reminder;
     embed_description := Some "Help grow this server. Run `/bump`";
     embed_color := GOLD cfg |}.

(** Lines 107-124: what [on_bump_done] does once it wakes up. *)
Definition send_reminder : Task unit :=
  channel <- attr (get_channel cfg (TERMINAL_CHANNEL_ID cfg)) ;;
  let bumper := get_role cfg channel (BUMPER_ROLE_ID cfg) in
  reminder <- attr (get_emoji cfg "reminder") ;;
  bumper <- attr bumper ;;
  r <- call (ChannelSend channel (role_mention bumper) (reminder_embed reminder)) ;;
  lift r.

(** Lines 93-124. *)
Definition on_bump_done (delay : Z) : Task unit :=
  modify (set_running true) ;;
  call (Sleep delay) ;;
  modify (set_running false) ;;
  send_reminder.

(** Lines 55-91, without the logging. *)
Definition on_ready : Task unit :=
  modify new_bump_timer ;;
  Read (fun s =>
    if MAINTENANCE_MODE s then
      modify (set_maintenance_channel (get_channel cfg (MAINTENANCE_CHANNEL_ID cfg))) ;;
      r <- call (ChangePresence (Some "do_not_disturb") "| Under Maintenance") ;;
      lift r
    else
      let previous_bump_time := get_bump_time s in
      now <- call Now ;;
      match previous_bump_time with
      | None => Raise TypeError
      | Some t =>
          call (Dispatch "bump_done" (Delay.initial_delay now t)) ;;
          r <- call (ChangePresence None "/emojis | .py") ;;
          lift r
      end).

(** [self.dispatch("bump_done", delay)] schedules [on_bump_done(delay)]. *)
Definition dispatched (event : string) (arg : Z) : option (Task unit) :=
  if String.eqb event "bump_done" then Some (on_bump_done arg) else None.

End Bot.

Arguments scan_word {Emoji} cfg st word.
Arguments scan_start {Emoji} c.
Arguments scan {Emoji} cfg c.
Arguments own_webhook {Emoji} cfg ws.
Arguments get_or_create_webhook {Emoji} cfg message.
Arguments _animated_emojis {Emoji} cfg message.
Arguments on_message {Emoji} cfg message.
Arguments reminder_embed {Emoji} cfg reminder.
Arguments send_reminder {Emoji} cfg.
Arguments on_bump_done {Emoji} cfg delay.
Arguments on_ready {Emoji} cfg.
Arguments dispatched {Emoji} cfg event arg.

(** The word [:name:]. *)
Definition token (name : string) : string := ":" ++ name ++ ":".


(* ===================================================================== *)
(** ** A small server, to run the handlers on *)
(* ===================================================================== *)

Module Demo.

(** Emojis are kept as their text. *)
Definition emojis (name : string) : option string :=
  if String.eqb name "smile" then Some "<a:smile:7>"
  else if String.eqb name "reminder" then Some "<:reminder:8>"
  else None.

Definition terminal : Channel := {| channel_id := 10 |}.
Definition lobby : Channel := {| channel_id := 12 |}.
Definition bumper : Role := {| role_id := 20; role_mention := "<@&20>" |}.

Definition cfg : Config string := {|
  TERMINAL_CHANNEL_ID := 10;
  MAINTENANCE_CHANNEL_ID := 11;
  BUMPER_ROLE_ID := 20;
  DISBOARD_ID := 30;
  GOLD := 15844367;
  self_user_id := 1;
  get_channel := fun i => if i =? 10 then Some terminal else None;
  get_role := fun _ i => if i =? 20 then Some bumper else None;
  get_emoji := emojis;
  emoji_str := fun e => e
|}.

Definition alice : User :=
  {| user_id := 40; display_name := "alice"; display_avatar := "alice.png" |}.

Definition disboard : User :=
  {| user_id := 30; display_name := "DISBOARD"; display_avatar := "disboard.png" |}.

(** A message of a member, and the confirmation of a bump. *)
Definition from_alice : Message :=
  {| message_id := 100; message_channel := lobby; message_author := alice;
     message_webhook_id := None; message_embeds := [] |}.

Definition bump_done : Message :=
  {| message_id := 101; message_channel := lobby; message_author := disboard;
     message_webhook_id := Some 31;
     message_embeds := [ {| embed_title := "DISBOARD";
                            embed_description := Some "Bump done! :thumbsup:";
                            embed_color := 0 |} ] |}.

(** A message sent through the webhook of the bot. *)
Definition relayed : Message :=
  {| message_id := 102; message_channel := lobby; message_author := alice;
     message_webhook_id := Some 50; message_embeds := [] |}.

Definition own : Webhook := {| webhook_id := 50; webhook_user := 1 |}.
Definition foreign : Webhook := {| webhook_id := 51; webhook_user := 2 |}.

(** The bot out of maintenance, the last bump at time 0, and the content
    of the message at hand. *)
Definition state (c : string) : State :=
  {| MAINTENANCE_MODE := false; MAINTENANCE_CHANNEL := None;
     running := false; bump_time := Some 0; content := c |}.

Definition maintenance (c : string) : State :=
  {| MAINTENANCE_MODE := true; MAINTENANCE_CHANNEL := Some terminal;
     running := false; bump_time := Some 0; content := c |}.

(** A world where every call succeeds, 1000 seconds after time 0; the
    channel has one webhook of someone else and one of the bot. *)
Definition calm : World := fun q =>
  match q as q0 return Reply q0 with
  | Now => 1000 * Delay.us
  | Sleep _ => tt
  | Dispatch _ _ => tt
  | ChangePresence _ _ => Ok tt
  | ChannelSend _ _ _ => Ok tt
  | ChannelWebhooks _ => Ok [foreign; own]
  | AvatarRead _ => Ok "PNG"
  | CreateWebhook _ _ _ _ => Ok own
  | WebhookSend _ _ _ _ => Ok tt
  | MessageDelete _ => Ok tt
  end.

(** The same world with one kind of call failing. *)
Definition no_listing : World := fun q =>
  match q as q0 return Reply q0 -> Reply q0 with
  | ChannelWebhooks _ => fun _ => Err HTTPException
  | _ => fun r => r
  end (calm q).

Definition no_webhook_yet : World := fun q =>
  match q as q0 return Reply q0 -> Reply q0 with
  | ChannelWebhooks _ => fun _ => Ok [foreign]
  | _ => fun r => r
  end (calm q).

Definition no_sending : World := fun q =>
  match q as q0 return Reply q0 -> Reply q0 with
  | WebhookSend _ _ _ _ => fun _ => Err HTTPException
  | _ => fun r => r
  end (calm q).

Definition no_deleting : World := fun q =>
  match q as q0 return Reply q0 -> Reply q0 with
  | MessageDelete _ => fun _ => Err HTTPException
  | _ => fun r => r
  end (calm q).

Definition no_reminder : World := fun q =>
  match q as q0 return Reply q0 -> Reply q0 with
  | ChannelSend _ _ _ => fun _ => Err HTTPException
  | _ => fun r => r
  end (calm q).


End Demo.

(* ===================================================================== *)
(** ** The help menu ([commands/usage.py]) *)
(* ===================================================================== *)

Module Usage.

(** What [select_callback] reads of an option, of a command and of a
    command group. *)
Record CommandOption := {
  option_name : string;
  option_required : bool
}.

Record Command := {
  command_str : string;                   (* [str(cmd)] *)
  command_description : string;
  command_options : list CommandOption
}.

(** A command of a group: a slash command, which has [options], or a
    command group or context-menu command, which has no such attribute. *)
Inductive CogCommand : Type :=
| WithOptions (cmd : Command)
| WithoutOptions.

Record Cog := {
  cog_description : string;
  cog_commands : list CogCommand          (* [cog.get_commands()] *)
}.

Record Field := {
  field_name : string;
  field_value : string;
  field_inline : bool
}.

(** The embed of the help menu, as [select_callback] builds it. *)
Record HelpEmbed := {
  help_description : string;
  help_color : Z;
  author_name : string;
  author_icon : string;
  footer_text : string;
  footer_icon : string;
  thumbnail : string;
  fields : list Field
}.

(** The line feed of ["...\n..."]. *)
Definition nl : string := String (ascii_of_nat 10) EmptyString.

(** The values of the three [SelectOption]s of the menu (lines 94-107). *)
Definition menu_values : list string :=
  ["GeneralCommands"; "ModerationCommands"; "MiscellaneousCommands"].

(** Line 147: [f"<{option.name}>" if option.required else f"[{option.name}]"]. *)
Definition render_option (o : CommandOption) : string :=
  if option_required o then "<" ++ option_name o ++ ">"
  else "[" ++ option_name o ++ "]".

(** Lines 146-149: [" ".join([...])]; [String.concat] is [sep.join]. *)
Definition options_string (cmd : Command) : string :=
  String.concat " " (map render_option (command_options cmd)).

(** Lines 152-157: the field added for one command; [emoji] is the text
    of the [reply] emoji. *)
Definition command_field (emoji : string) (cmd : Command) : Field :=
  {| field_name := "__/" ++ command_str cmd ++ "__";
     field_value := emoji ++ " " ++ command_description cmd ++ nl
                    ++ emoji ++ " Usage: `/" ++ command_str cmd ++ " "
                    ++ options_string cmd ++ "`";
     field_inline := false |}.

(** Lines 144-157: the loop over the commands, one field added for
    each; [cmd.options] of a command without this attribute raises. *)
Fixpoint add_fields (emoji : string) (cmds : list CogCommand)
    (fields : list Field) : Result (list Field) :=
  match cmds with
  | [] => Ok fields
  | WithoutOptions :: _ => Err AttributeError
  | WithOptions cmd :: rest =>
      add_fields emoji rest (fields ++ [command_field emoji cmd])
  end.

Section Help.

Variable Emoji : Type.
Variable cfg : Config Emoji.

(** [self._bot.get_cog]: the loaded group of that name, if any. *)
Variable get_cog : string -> option Cog.

(** [self._bot.user.display_avatar], and the author of the command with
    [ctx.author.color]. *)
Variable bot_avatar : string.
Variable author : User.
Variable author_color : Z.

(** Lines 122-157 of [UsageView.select_callback]: the embed handed to
    [edit_message], or the exception raised before that call.  [values]
    is [select.values]. *)
Definition select_callback_embed (values : list string) : Result HelpEmbed :=
  match values with
  | [] => Err IndexError
  | value :: _ =>
      match get_cog value with
      | None => Err AttributeError              (* [cog.description] of [None] *)
      | Some cog =>
          match get_emoji cfg "reply" with
          | None => Err AttributeError
          | Some emoji =>
              match add_fields (emoji_str cfg emoji) (cog_commands cog) [] with
              | Err e => Err e
              | Ok fields =>
                  Ok {| help_description := cog_description cog;
                        help_color := author_color;
                        author_name := "iCODE Usage Help";
                        author_icon := bot_avatar;
                        footer_text := "<Required> - [Optional]";
                        footer_icon := display_avatar author;
                        thumbnail := bot_avatar;
                        fields := fields |}
              end
          end
      end
  end.

End Help.

Arguments select_callback_embed {Emoji} cfg get_cog bot_avatar author author_color values.

End Usage.

Module DemoUsage.
Import Usage.

Definition ban : Command :=
  {| command_str := "ban";
     command_description := "Ban a member";
     command_options := [ {| option_name := "member"; option_required := true |};
                          {| option_name := "reason"; option_required := false |} ] |}.

Definition moderation : Cog :=
  {| cog_description := "Moderation"; cog_commands := [WithOptions ban] |}.

(** A group with a command group among its commands. *)
Definition miscellaneous : Cog :=
  {| cog_description := "Miscellaneous";
     cog_commands := [WithOptions ban; WithoutOptions] |}.

Definition cogs (name : string) : option Cog :=
  if String.eqb name "ModerationCommands" then Some moderation
  else if String.eqb name "MiscellaneousCommands" then Some miscellaneous
  else None.

End DemoUsage.

(* ===================================================================== *)
(** ** The invariant of the token scan *)
(* ===================================================================== *)

(** What the loop of [_animated_emojis] keeps true of its variables:
    [temp] holds words [:name:] that resolved, each once; [emoji] is set
    as soon as [temp] is not empty; a name that resolves has been looked
    up as often as its word is in [temp]. *)
Definition scan_inv {Emoji : Type} (cfg : Config Emoji) (st : Scan Emoji) : Prop :=
  (forall w, In w (temp st) ->
     exists name e, name <> "" /\ w = token name /\ get_emoji cfg name = Some e)
  /\ NoDup (temp st)
  /\ (temp st <> [] -> exists e, emoji st = Some e)
  /\ (forall name e, get_emoji cfg name = Some e ->
        count_occ string_dec (lookups st) name
        = count_occ string_dec (temp st) (token name)).

(** A string without white space: a name that [split()] keeps whole. *)
Fixpoint no_space (s : string) : bool :=
  match s with
  | EmptyString => true
  | String c s' => negb (PyStr.isspace c) && no_space s'
  end.

(** A second server: it knows the [reply] emoji and its maintenance
    channel, but neither the terminal channel nor a bumper role. *)
Module DemoEdges.

Definition workshop : Channel := {| channel_id := 11 |}.

Definition cfg : Config string := {|
  TERMINAL_CHANNEL_ID := 10;
  MAINTENANCE_CHANNEL_ID := 11;
  BUMPER_ROLE_ID := 20;
  DISBOARD_ID := 30;
  GOLD := 15844367;
  self_user_id := 1;
  get_channel := fun i => if i =? 11 then Some workshop else None;
  get_role := fun _ _ => None;
  get_emoji := fun name => if String.eqb name "reply" then Some "<:reply:9>" else None;
  emoji_str := fun e => e
|}.

(** Messages of Disboard that confirm nothing. *)
Definition no_embed : Message :=
  {| message_id := 103; message_channel := Demo.lobby;
     message_author := Demo.disboard; message_webhook_id := Some 31;
     message_embeds := [] |}.

Definition no_description : Message :=
  {| message_id := 104; message_channel := Demo.lobby;
     message_author := Demo.disboard; message_webhook_id := Some 31;
     message_embeds := [ {| embed_title := "DISBOARD"; embed_description := None;
                            embed_color := 0 |};
                         {| embed_title := ""; embed_description := Some "Bump done!";
                            embed_color := 0 |} ] |}.

Definition wait_more : Message :=
  {| message_id := 105; message_channel := Demo.lobby;
     message_author := Demo.disboard; message_webhook_id := Some 31;
     message_embeds := [ {| embed_title := "DISBOARD";
                            embed_description := Some "Please wait another 30 minutes";
                            embed_color := 0 |} ] |}.


(** Worlds where the channel has no webhook of the bot yet, and the
    avatar cannot be read or the webhook cannot be created. *)
Definition no_avatar : World := fun q =>
  match q as q0 return Reply q0 -> Reply q0 with
  | AvatarRead _ => fun _ => Err HTTPException
  | _ => fun r => r
  end (Demo.no_webhook_yet q).

Definition no_creating : World := fun q =>
  match q as q0 return Reply q0 -> Reply q0 with
  | CreateWebhook _ _ _ _ => fun _ => Err HTTPException
  | _ => fun r => r
  end (Demo.no_webhook_yet q).

End DemoEdges.

(* ===================================================================== *)
(** ** Facts about the string operations *)
(* ===================================================================== *)

Module PyStrFacts.
Import PyStr.

Lemma append_nil_r (s : string) : s ++ "" = s.
Proof. induction s as [|c s IH]; simpl; [reflexivity | now rewrite IH]. Qed.

Lemma append_assoc (a b c : string) : (a ++ b) ++ c = a ++ (b ++ c).
Proof. induction a as [|x a IH]; simpl; [reflexivity | now rewrite IH]. Qed.

Lemma length_append (a b : string) :
  String.length (a ++ b) = (String.length a + String.length b)%nat.
Proof. induction a as [|x a IH]; simpl; [reflexivity | now rewrite IH]. Qed.

Lemma is_empty_true (s : string) : is_empty s = true <-> s = "".
Proof. destruct s; simpl; split; intro H; try reflexivity; discriminate. Qed.

Lemma is_empty_snoc (s : string) (c : ascii) : is_empty (snoc s c) = false.
Proof. destruct s; reflexivity. Qed.

(** A word of [split()] is never empty: [word[0]] and [word[-1]] are
    defined for each of them. *)
Lemma split_from_nonempty (s : string) :
  forall cur w, In w (split_from cur s) -> is_empty w = false.
Proof.
  induction s as [|c s IH]; intros cur w; simpl.
  - destruct (is_empty cur) eqn:E; simpl; [tauto |].
    intros [<- | []]. exact E.
  - destruct (isspace c).
    + destruct (is_empty cur) eqn:E.
      * apply IH.
      * intros [<- | H]; [exact E | now apply IH in H].
    + apply IH.
Qed.

Lemma split_nonempty (s w : string) : In w (split s) -> w <> "".
Proof.
  intros H E. apply split_from_nonempty in H. subst w. discriminate.
Qed.

Lemma last_char_snoc (s : string) (c : ascii) : last_char (snoc s c) = Some c.
Proof.
  induction s as [|x s IH]; [reflexivity |].
  change (snoc (String x s) c) with (String x (snoc s c)).
  simpl. rewrite IH. destruct (snoc s c) eqn:E; [|reflexivity].
  destruct s; discriminate.
Qed.

Lemma drop_last_snoc (s : string) (c : ascii) : drop_last (snoc s c) = s.
Proof.
  induction s as [|x s IH]; [reflexivity |].
  change (snoc (String x s) c) with (String x (snoc s c)).
  simpl. rewrite IH. destruct (snoc s c) eqn:E; [|reflexivity].
  destruct s; discriminate.
Qed.

(** A string that has a last character is the rest followed by it. *)
Lemma last_char_split (s : string) (c : ascii) :
  last_char s = Some c -> s = snoc (drop_last s) c.
Proof.
  induction s as [|x s IH]; simpl; [discriminate |].
  destruct s as [|y s].
  - intros [= ->]. reflexivity.
  - intros H. apply IH in H.
    change (snoc (String x (drop_last (String y s))) c)
      with (String x (snoc (drop_last (String y s)) c)).
    now rewrite <- H.
Qed.

Lemma length_snoc (s : string) (c : ascii) :
  String.length (snoc s c) = S (String.length s).
Proof. unfold snoc. rewrite length_append. simpl. lia. Qed.

Lemma nonempty_snoc (s : string) :
  s <> "" -> exists c, s = snoc (drop_last s) c.
Proof.
  intros Hne. destruct (last_char s) as [c|] eqn:E.
  - exists c. now apply last_char_split.
  - exfalso. induction s as [|x s IH]; [now elim Hne |].
    simpl in E. destruct s; [discriminate |]. apply IH; [discriminate | exact E].
Qed.

Lemma prefix_nil (s : string) : prefix "" s = true.
Proof. destruct s; reflexivity. Qed.

Lemma prefix_append_self (p b : string) : prefix p (p ++ b) = true.
Proof.
  induction p as [|c p IH]; simpl; [apply prefix_nil |].
  destruct (ascii_dec c c) as [_ | H]; [exact IH | now elim H].
Qed.

(** A prefix of [x ++ y] no longer than [x] is a prefix of [x]. *)
Lemma prefix_cut (p : string) :
  forall x y, prefix p (x ++ y) = true ->
              (String.length p <= String.length x)%nat -> prefix p x = true.
Proof.
  induction p as [|a p IH]; intros x y H Hlen; [apply prefix_nil |].
  destruct x as [|b x]; [simpl in Hlen; lia |].
  simpl in *. destruct (ascii_dec a b); [|discriminate].
  apply (IH x y H). lia.
Qed.

Lemma contains_nil (s : string) : contains "" s = true.
Proof. destruct s; reflexivity. Qed.

Lemma contains_cons (old : string) (c : ascii) (s : string) :
  contains old (String c s) = false ->
  prefix old (String c s) = false /\ contains old s = false.
Proof. simpl contains. intros H. now apply orb_false_iff in H. Qed.

Lemma replace_from_skip (x old new b : string) :
  replace_from (String.length x) old new (x ++ b) = replace_from O old new b.
Proof. induction x as [|c x IH]; simpl; [reflexivity | exact IH]. Qed.

(** Where [old] does not occur, [replace] changes nothing. *)
Lemma replace_absent (old new s : string) :
  contains old s = false -> replace old new s = s.
Proof.
  destruct old as [|o old]; [now rewrite contains_nil |].
  unfold replace. simpl is_empty.
  induction s as [|c s IH]; intros H; [reflexivity |].
  apply contains_cons in H. destruct H as [Hp Hc].
  cbn [replace_from]. rewrite Hp. now rewrite IH.
Qed.

Lemma replace_from_hit (old new b : string) :
  old <> "" ->
  replace_from O old new (old ++ b) = new ++ replace_from O old new b.
Proof.
  destruct old as [|o old]; [intros H; now elim H | intros _].
  change (String o old ++ b) with (String o (old ++ b)).
  cbn [replace_from].
  change (String o (old ++ b)) with (String o old ++ b).
  rewrite prefix_append_self. cbn [String.length Nat.pred].
  now rewrite replace_from_skip.
Qed.

Lemma replace_from_occurrence (old new : string) :
  old <> "" ->
  forall a b,
    contains old (a ++ drop_last old) = false ->
    replace_from O old new (a ++ old ++ b)
    = a ++ new ++ replace_from O old new b.
Proof.
  intros Hne a b. destruct (nonempty_snoc old Hne) as [l Hl].
  assert (Hob : old ++ b = drop_last old ++ String l b).
  { rewrite Hl at 1. unfold snoc. now rewrite append_assoc. }
  assert (Hlen : String.length old = S (String.length (drop_last old))).
  { rewrite Hl at 1. apply length_snoc. }
  induction a as [|d a IH]; intros H.
  - simpl. now apply replace_from_hit.
  - change (String d a ++ drop_last old) with (String d (a ++ drop_last old)) in H.
    apply contains_cons in H. destruct H as [Hp Hc].
    change (String d a ++ old ++ b) with (String d (a ++ old ++ b)).
    change (String d a ++ new ++ replace_from O old new b)
      with (String d (a ++ new ++ replace_from O old new b)).
    cbn [replace_from].
    assert (Hpre : prefix old (String d (a ++ old ++ b)) = false).
    { destruct (prefix old (String d (a ++ old ++ b))) eqn:E; [|reflexivity].
      rewrite <- Hp. symmetry.
      apply (prefix_cut old (String d (a ++ drop_last old)) (String l b)).
      - rewrite <- E. f_equal.
        change (String d (a ++ drop_last old) ++ String l b)
          with (String d ((a ++ drop_last old) ++ String l b)).
        now rewrite append_assoc, Hob.
      - cbn [String.length]. rewrite length_append. lia. }
    rewrite Hpre. f_equal. now apply IH.
Qed.

(** The leftmost occurrence of [old] is replaced by [new], and the
    replacement goes on behind it: an occurrence is leftmost when [old]
    does not occur in what precedes its last character. *)
Lemma replace_occurrence (old new a b : string) :
  contains old (a ++ drop_last old) = false ->
  replace old new (a ++ old ++ b) = a ++ new ++ replace old new b.
Proof.
  intros H. destruct (is_empty old) eqn:E.
  - apply is_empty_true in E. subst old. now rewrite contains_nil in H.
  - unfold replace. rewrite E. apply replace_from_occurrence; [|exact H].
    intros ->. discriminate.
Qed.

End PyStrFacts.

(* ===================================================================== *)
(** ** The token scan of the relay *)
(* ===================================================================== *)

Module ScanFacts.
Import PyStr PyStrFacts.

Lemma mem_In (w : string) (l : list string) : mem w l = true <-> In w l.
Proof.
  unfold mem. rewrite existsb_exists. split.
  - intros [x [Hin Heq]]. apply String.eqb_eq in Heq. now subst.
  - intros Hin. exists w. split; [exact Hin | apply String.eqb_refl].
Qed.

Lemma mem_not_In (w : string) (l : list string) : mem w l = false <-> ~ In w l.
Proof.
  rewrite <- mem_In. destruct (mem w l); split; intro H; try reflexivity;
    try discriminate; try (intro; discriminate). now elim H.
Qed.

Lemma last_char_cons (c : ascii) (s : string) :
  s <> "" -> last_char (String c s) = last_char s.
Proof. destruct s; [intros H; now elim H | reflexivity]. Qed.

Lemma snoc_not_empty (s : string) (c : ascii) : snoc s c <> "".
Proof. destruct s; discriminate. Qed.

(** The two tests on the shape of a word, [word[0] == word[-1] == ":"]
    and [len(word) > 2], hold exactly for the words [:name:] with a name
    that is not empty. *)
Lemma wrapped_long_token (w : string) :
  wrapped w = true /\ (2 <? Z.of_nat (String.length w)) = true
  <-> exists name, name <> "" /\ w = token name.
Proof.
  split.
  - intros [Hw Hlen]. apply Z.ltb_lt in Hlen.
    destruct w as [|a rest]; [discriminate |].
    unfold wrapped in Hw. simpl first_char in Hw.
    assert (Hrest : rest <> "") by (intros ->; simpl in Hlen; lia).
    rewrite (last_char_cons a rest Hrest) in Hw.
    destruct (last_char rest) as [b|] eqn:Hb; [|discriminate].
    apply andb_true_iff in Hw. destruct Hw as [Hab Hb'].
    apply Ascii.eqb_eq in Hab, Hb'. subst a b.
    apply last_char_split in Hb.
    exists (drop_last rest). split.
    + intros E. rewrite E in Hb. subst rest. simpl in Hlen. lia.
    + unfold token. simpl. f_equal. exact Hb.
  - intros [name [Hne ->]]. unfold token. simpl.
    change (name ++ ":") with (snoc name ":"%char). split.
    + unfold wrapped. simpl first_char.
      rewrite (last_char_cons _ _ (snoc_not_empty name _)), last_char_snoc.
      reflexivity.
    + apply Z.ltb_lt. simpl String.length. rewrite length_snoc.
      destruct name; [now elim Hne | simpl; lia].
Qed.

(** [word[1:-1]] of [:name:] is [name]. *)
Lemma strip_ends_token (name : string) : strip_ends (token name) = name.
Proof. unfold token. simpl. apply (drop_last_snoc name ":"%char). Qed.

Lemma token_inj (a b : string) : token a = token b -> a = b.
Proof. intros H. rewrite <- (strip_ends_token a), H. apply strip_ends_token. Qed.

End ScanFacts.

(* ===================================================================== *)
(** ** Running coroutines *)
(* ===================================================================== *)

(** A coroutine followed by another: the second runs from where the
    first returned, and does not run when the first raised. *)
Lemma run_from_bind {A B : Type} (w : World) (t : Task A) (f : A -> Task B) :
  forall s tr,
    run_from w (bind t f) s tr =
      match outcome (run_from w t s tr) with
      | Ok a => run_from w (f a) (final (run_from w t s tr)) (trace (run_from w t s tr))
      | Err e => {| outcome := Err e;
                    final := final (run_from w t s tr);
                    trace := trace (run_from w t s tr) |}
      end.
Proof.
  induction t as [a | e | k IH | s' k IH | q k IH]; intros s tr; simpl;
    try reflexivity; auto.
Qed.

(** The calls made before a run stay in front of those it makes. *)
Lemma run_from_trace {A : Type} (w : World) (t : Task A) :
  forall s tr,
    run_from w t s tr =
      {| outcome := outcome (run w t s);
         final := final (run w t s);
         trace := tr ++ trace (run w t s) |}.
Proof.
  unfold run.
  induction t as [a | e | k IH | s' k IH | q k IH]; intros s tr; simpl.
  - now rewrite app_nil_r.
  - now rewrite app_nil_r.
  - apply IH.
  - apply IH.
  - rewrite (IH (w q) s (tr ++ [(s, q)])%list), (IH (w q) s [(s, q)]).
    simpl. now rewrite <- app_assoc.
Qed.

Section Relay.
Import PyStr PyStrFacts ScanFacts.

Variable Emoji : Type.
Variable cfg : Config Emoji.

Lemma candidate_iff (w : string) (tmp : list string) :
  candidate w tmp = true
  <-> (exists name, name <> "" /\ w = token name) /\ ~ In w tmp.
Proof.
  unfold candidate. rewrite !andb_true_iff, negb_true_iff, mem_not_In.
  now rewrite wrapped_long_token.
Qed.

Lemma scan_word_skip (st : Scan Emoji) (w : string) :
  candidate w (temp st) = false -> scan_word cfg st w = st.
Proof. unfold scan_word. now intros ->. Qed.

Lemma scan_word_hit (st : Scan Emoji) (name : string) (e : Emoji) :
  name <> "" -> ~ In (token name) (temp st) -> get_emoji cfg name = Some e ->
  scan_word cfg st (token name) =
    {| text := replace (token name) (emoji_str cfg e) (text st);
       temp := temp st ++ [token name];
       emoji := Some e;
       lookups := lookups st ++ [name] |}.
Proof.
  intros Hne Hnew He.
  assert (Hc : candidate (token name) (temp st) = true).
  { apply candidate_iff. split; [exists name; auto | exact Hnew]. }
  unfold scan_word. now rewrite Hc, strip_ends_token, He.
Qed.

Lemma scan_word_miss (st : Scan Emoji) (name : string) :
  name <> "" -> ~ In (token name) (temp st) -> get_emoji cfg name = None ->
  scan_word cfg st (token name) =
    {| text := text st; temp := temp st; emoji := emoji st;
       lookups := lookups st ++ [name] |}.
Proof.
  intros Hne Hnew He.
  assert (Hc : candidate (token name) (temp st) = true).
  { apply candidate_iff. split; [exists name; auto | exact Hnew]. }
  unfold scan_word. now rewrite Hc, strip_ends_token, He.
Qed.

(** The loop never calls [get_emoji] with the empty name. *)
Lemma scan_word_lookups_nonempty (st : Scan Emoji) (w : string) :
  ~ In "" (lookups st) -> ~ In "" (lookups (scan_word cfg st w)).
Proof.
  intros Hst. unfold scan_word.
  destruct (candidate w (temp st)) eqn:Hc; [|exact Hst].
  apply candidate_iff in Hc. destruct Hc as [[name [Hne ->]] _].
  rewrite strip_ends_token.
  destruct (get_emoji cfg name); simpl; rewrite in_app_iff; simpl;
    intros [H | [H | []]]; auto.
Qed.

Lemma fold_scan_lookups_nonempty (ws : list string) :
  forall st : Scan Emoji,
    ~ In "" (lookups st) -> ~ In "" (lookups (fold_left (scan_word cfg) ws st)).
Proof.
  induction ws as [|w ws IH]; intros st Hst; simpl; [exact Hst |].
  apply IH. now apply scan_word_lookups_nonempty.
Qed.

(** C8.  In ["hello :smile: world :smile:"], with [smile] resolving to an
    emoji whose text is [R], the loop leaves the text ["hello R world R"]
    and has called [get_emoji] once, with [smile]. *)
Theorem scan_smile_twice (e : Emoji) :
  get_emoji cfg "smile" = Some e ->
  let st := scan cfg "hello :smile: world :smile:" in
  text st = "hello " ++ emoji_str cfg e ++ " world " ++ emoji_str cfg e
  /\ lookups st = ["smile"]
  /\ count_occ string_dec (lookups st) "smile" = 1%nat.
Proof.
  intros He st.
  assert (Hst : st = {| text := "hello " ++ emoji_str cfg e ++ " world "
                                 ++ emoji_str cfg e;
                        temp := [":smile:"];
                        emoji := Some e;
                        lookups := ["smile"] |}).
  { unfold st, scan.
    change (split "hello :smile: world :smile:")
      with ["hello"; token "smile"; "world"; token "smile"].
    simpl fold_left.
    rewrite (scan_word_skip (scan_start _) "hello") by reflexivity.
    rewrite (scan_word_hit (scan_start _) "smile" e)
      by (simpl; (discriminate || tauto || exact He)).
    rewrite (scan_word_skip _ "world") by reflexivity.
    rewrite scan_word_skip by reflexivity.
    simpl. f_equal.
    change (replace (token "smile") (emoji_str cfg e) "hello :smile: world :smile:")
      with ("hello " ++ emoji_str cfg e ++ " world " ++ emoji_str cfg e ++ "").
    now rewrite append_nil_r. }
  rewrite Hst. simpl. auto.
Qed.

Lemma set_content_same (s : State) : set_content (content s) s = s.
Proof. now destruct s. Qed.

(** When every [:name:] among the words is a miss, the loop changes
    neither the text nor [temp] nor [emoji]. *)
Lemma fold_scan_all_miss (ws : list string) :
  (forall name, name <> "" -> In (token name) ws -> get_emoji cfg name = None) ->
  forall st : Scan Emoji,
    text (fold_left (scan_word cfg) ws st) = text st
    /\ temp (fold_left (scan_word cfg) ws st) = temp st
    /\ emoji (fold_left (scan_word cfg) ws st) = emoji st.
Proof.
  induction ws as [|w ws IH]; intros Hmiss st; simpl; [auto |].
  assert (Hw : text (scan_word cfg st w) = text st
               /\ temp (scan_word cfg st w) = temp st
               /\ emoji (scan_word cfg st w) = emoji st).
  { destruct (candidate w (temp st)) eqn:Hc.
    - apply candidate_iff in Hc. destruct Hc as [[name [Hne ->]] Hnew].
      rewrite (scan_word_miss st name Hne Hnew
                 (Hmiss name Hne (or_introl eq_refl))).
      simpl. auto.
    - rewrite scan_word_skip; auto. }
  destruct Hw as [Ht [Htmp He]].
  destruct (IH (fun n Hn Hin => Hmiss n Hn (or_intror Hin)) (scan_word cfg st w))
    as [Ht' [Htmp' He']].
  rewrite Ht', Htmp', He'. auto.
Qed.

Lemma animated_emojis_idle (w : World) (s : State) (m : Message) :
  (forall name, name <> "" -> In (token name) (split (content s)) ->
                get_emoji cfg name = None) ->
  run w (_animated_emojis cfg m) s = {| outcome := Ok tt; final := s; trace := [] |}.
Proof.
  intros Hmiss.
  destruct (fold_scan_all_miss _ Hmiss (scan_start (content s))) as [Ht [_ He]].
  unfold run, _animated_emojis. simpl. fold (scan cfg (content s)) in Ht, He.
  rewrite He, Ht. simpl. now rewrite set_content_same.
Qed.

(** C3.  When no [:name:] word of the message resolves, [_animated_emojis]
    makes no call at all (no webhook is listed or created, nothing is sent,
    the message is not deleted), returns normally and leaves the state,
    with the content of the message, as it was; so does [on_message] for a
    message that does not come from a webhook. *)
Theorem relay_without_resolution_is_idle (w : World) (s : State) (m : Message) :
  (forall name, name <> "" -> In (token name) (split (content s)) ->
                get_emoji cfg name = None) ->
  run w (_animated_emojis cfg m) s = {| outcome := Ok tt; final := s; trace := [] |}
  /\ (has_webhook_id m = false ->
      run w (on_message cfg m) s = {| outcome := Ok tt; final := s; trace := [] |}).
Proof.
  intros Hmiss. split; [now apply animated_emojis_idle |].
  intros Hweb. pose proof (animated_emojis_idle w s m Hmiss) as Hrun.
  unfold run, on_message in *. simpl. rewrite Hweb.
  destruct (outside_maintenance s m); [reflexivity |].
  destruct (1 <? count_char ":" (content s)); [exact Hrun | reflexivity].
Qed.

(** [own_webhook] is the first webhook of the list owned by the bot. *)
Lemma own_webhook_some (ws : list Webhook) (wh : Webhook) :
  own_webhook cfg ws = Some wh -> In wh ws /\ webhook_user wh = self_user_id cfg.
Proof.
  unfold own_webhook. intros H. apply find_some in H.
  destruct H as [Hin Heq]. split; [exact Hin | now apply Z.eqb_eq].
Qed.

Lemma own_webhook_none (ws : list Webhook) :
  own_webhook cfg ws = None <->
  forall x, In x ws -> webhook_user x <> self_user_id cfg.
Proof.
  unfold own_webhook. split.
  - intros H x Hin. apply Z.eqb_neq. exact (find_none _ _ H x Hin).
  - intros H. destruct (find _ ws) as [x|] eqn:E; [|reflexivity].
    apply find_some in E. destruct E as [Hin Heq].
    apply Z.eqb_eq in Heq. now elim (H x Hin).
Qed.

Lemma own_webhook_first (ws : list Webhook) (wh : Webhook) :
  own_webhook cfg ws = Some wh ->
  exists before after,
    ws = (before ++ wh :: after)%list
    /\ forall x, In x before -> webhook_user x <> self_user_id cfg.
Proof.
  unfold own_webhook. induction ws as [|x ws IH]; simpl; [discriminate |].
  destruct (webhook_user x =? self_user_id cfg) eqn:E.
  - intros [= ->]. exists [], ws. split; [reflexivity | intros ? []].
  - intros H. destruct (IH H) as [before [after [-> Hb]]].
    exists (x :: before), after. split; [reflexivity |].
    intros y [<- | Hy]; [now apply Z.eqb_neq | now apply Hb].
Qed.

Lemma get_or_create_reuse (w : World) (s : State) (m : Message)
    (ws : list Webhook) (wh : Webhook) :
  w (ChannelWebhooks (message_channel m)) = Ok ws ->
  own_webhook cfg ws = Some wh ->
  run w (get_or_create_webhook cfg m) s =
    {| outcome := Ok wh; final := s;
       trace := [(s, ChannelWebhooks (message_channel m))] |}.
Proof.
  intros Hws Hown. unfold run, get_or_create_webhook. simpl.
  rewrite Hws. simpl. rewrite Hown. reflexivity.
Qed.

Lemma get_or_create_new (w : World) (s : State) (m : Message)
    (ws : list Webhook) (avatar : string) :
  w (ChannelWebhooks (message_channel m)) = Ok ws ->
  own_webhook cfg ws = None ->
  w (AvatarRead (display_avatar (message_author m))) = Ok avatar ->
  run w (get_or_create_webhook cfg m) s =
    {| outcome := w (CreateWebhook (message_channel m) "iCODE-BOT" avatar
                       "Animated Emoji Usage");
       final := s;
       trace := [(s, ChannelWebhooks (message_channel m));
                 (s, AvatarRead (display_avatar (message_author m)));
                 (s, CreateWebhook (message_channel m) "iCODE-BOT" avatar
                       "Animated Emoji Usage")] |}.
Proof.
  intros Hws Hown Hav. unfold run, get_or_create_webhook. simpl.
  rewrite Hws. simpl. rewrite Hown. simpl. rewrite Hav. simpl.
  destruct (w (CreateWebhook _ _ _ _)); reflexivity.
Qed.

(** C5.  [get_or_create_webhook] lists the webhooks of the channel of the
    message.  If one of them is owned by the bot ([webhook.user.id ==
    self.user.id]), the first such webhook is the result and nothing is
    created.  Otherwise it reads the avatar of the author of the message
    and creates a webhook in that channel, named [iCODE-BOT], with that
    avatar; the created webhook is the result. *)
Theorem get_or_create_webhook_spec (w : World) (s : State) (m : Message)
    (ws : list Webhook) :
  w (ChannelWebhooks (message_channel m)) = Ok ws ->
  (forall wh, In wh ws -> webhook_user wh = self_user_id cfg ->
     exists own before after,
       ws = (before ++ own :: after)%list
       /\ webhook_user own = self_user_id cfg
       /\ (forall x, In x before -> webhook_user x <> self_user_id cfg)
       /\ run w (get_or_create_webhook cfg m) s =
            {| outcome := Ok own; final := s;
               trace := [(s, ChannelWebhooks (message_channel m))] |})
  /\ ((forall x, In x ws -> webhook_user x <> self_user_id cfg) ->
      forall avatar,
        w (AvatarRead (display_avatar (message_author m))) = Ok avatar ->
        run w (get_or_create_webhook cfg m) s =
          {| outcome := w (CreateWebhook (message_channel m) "iCODE-BOT" avatar
                             "Animated Emoji Usage");
             final := s;
             trace := [(s, ChannelWebhooks (message_channel m));
                       (s, AvatarRead (display_avatar (message_author m)));
                       (s, CreateWebhook (message_channel m) "iCODE-BOT" avatar
                             "Animated Emoji Usage")] |}).
Proof.
  intros Hws. split.
  - intros wh Hin Hid.
    destruct (own_webhook cfg ws) as [own|] eqn:Hown.
    + destruct (own_webhook_first ws own Hown) as [before [after [E Hb]]].
      exists own, before, after. repeat split; auto.
      * now apply (own_webhook_some ws).
      * now apply (get_or_create_reuse w s m ws).
    + now elim (proj1 (own_webhook_none ws) Hown wh Hin).
  - intros Hnone avatar Hav.
    now apply (get_or_create_new w s m ws avatar Hws (proj2 (own_webhook_none ws) Hnone)).
Qed.

(** [get_or_create_webhook] leaves the state alone, and calls nothing but
    the listing, the avatar read and the creation. *)
Lemma get_or_create_frame (w : World) (s : State) (m : Message) :
  final (run w (get_or_create_webhook cfg m) s) = s
  /\ forall st q, In (st, q) (trace (run w (get_or_create_webhook cfg m) s)) ->
       st = s /\ match q with
                 | ChannelWebhooks _ | AvatarRead _ | CreateWebhook _ _ _ _ => True
                 | _ => False
                 end.
Proof.
  unfold run, get_or_create_webhook. simpl.
  destruct (w (ChannelWebhooks (message_channel m))) as [ws | x]; simpl.
  2:{ split; [reflexivity |]. intros st q [[= <- <-] | []]. auto. }
  destruct (own_webhook cfg ws) as [wh |]; simpl.
  { split; [reflexivity |]. intros st q [[= <- <-] | []]. auto. }
  destruct (w (AvatarRead (display_avatar (message_author m)))) as [av | x]; simpl.
  2:{ split; [reflexivity |].
      intros st q [[= <- <-] | [[= <- <-] | []]]; auto. }
  destruct (w (CreateWebhook (message_channel m) "iCODE-BOT" av
                 "Animated Emoji Usage")) as [wh | x]; simpl;
    (split; [reflexivity |]);
    intros st q [[= <- <-] | [[= <- <-] | [[= <- <-] | []]]]; auto.
Qed.

(** The run of [_animated_emojis] once a token has resolved: the text is
    rewritten, then the webhook is obtained, then the text is sent through
    it, then the message is deleted; the first failure ends the run. *)
Lemma animated_emojis_run (w : World) (s : State) (m : Message) (e : Emoji) :
  emoji (scan cfg (content s)) = Some e ->
  let s' := set_content (text (scan cfg (content s))) s in
  let r := run w (get_or_create_webhook cfg m) s' in
  run w (_animated_emojis cfg m) s =
    match outcome r with
    | Err x => {| outcome := Err x; final := s'; trace := trace r |}
    | Ok wh =>
        let send := WebhookSend wh (text (scan cfg (content s)))
                      (display_name (message_author m))
                      (display_avatar (message_author m)) in
        match w send with
        | Err x => {| outcome := Err x; final := s';
                      trace := trace r ++ [(s', send)] |}
        | Ok _ => {| outcome := w (MessageDelete (message_id m)); final := s';
                     trace := trace r ++ [(s', send);
                                          (s', MessageDelete (message_id m))] |}
        end
    end.
Proof.
  intros He s' r.
  destruct (get_or_create_frame w s' m) as [Hfin _]. fold r in Hfin.
  unfold run at 1. unfold _animated_emojis. cbn [run_from]. rewrite He. fold s'.
  rewrite run_from_bind. fold (run w (get_or_create_webhook cfg m) s'). fold r.
  rewrite Hfin. destruct (outcome r) as [wh | x]; [|reflexivity].
  simpl.
  destruct (w (WebhookSend wh _ _ _)) as [u | x]; simpl; [|reflexivity].
  rewrite <- app_assoc. simpl.
  destruct (w (MessageDelete (message_id m))) as [u' | x]; reflexivity.
Qed.

Lemma proxy_calls_only (w : World) (s : State) (m : Message) (q : Request) :
  In q (calls (run w (get_or_create_webhook cfg m) s)) ->
  match q with
  | ChannelWebhooks _ | AvatarRead _ | CreateWebhook _ _ _ _ => True
  | _ => False
  end.
Proof.
  unfold calls. rewrite in_map_iff. intros [[st q'] [Hq Hin]]. simpl in Hq. subst q'.
  now apply (proj2 (get_or_create_frame w s m) st q).
Qed.

(** C4, as the code has it.  Once a token has resolved, a failure of a
    call of the relay is not caught by [_animated_emojis]: the coroutine
    ends there with that exception, and the calls that would follow are
    not made.  A failure while the webhook is obtained leaves out the send
    and the delete; a failure of the send leaves out the delete, so the
    message stays; a failure of the delete comes after the send. *)
Theorem relay_failure_ends_run (w : World) (s : State) (m : Message) (e : Emoji) :
  emoji (scan cfg (content s)) = Some e ->
  let s' := set_content (text (scan cfg (content s))) s in
  let proxy := run w (get_or_create_webhook cfg m) s' in
  let r := run w (_animated_emojis cfg m) s in
  let send wh := WebhookSend wh (text (scan cfg (content s)))
                   (display_name (message_author m))
                   (display_avatar (message_author m)) in
  let delete := MessageDelete (message_id m) in
  (forall x, outcome proxy = Err x ->
     outcome r = Err x /\ trace r = trace proxy
     /\ (forall wh, ~ In (send wh) (calls r)) /\ ~ In delete (calls r))
  /\ (forall wh x, outcome proxy = Ok wh -> w (send wh) = Err x ->
      outcome r = Err x /\ trace r = (trace proxy ++ [(s', send wh)])%list
      /\ ~ In delete (calls r))
  /\ (forall wh u x, outcome proxy = Ok wh -> w (send wh) = Ok u ->
      w delete = Err x ->
      outcome r = Err x
      /\ trace r = (trace proxy ++ [(s', send wh); (s', delete)])%list).
Proof.
  intros He s' proxy r send delete.
  pose proof (animated_emojis_run w s m e He) as Hrun.
  cbv zeta in Hrun. fold s' in Hrun. fold proxy in Hrun. fold r in Hrun.
  assert (Hproxy : forall q, In q (calls proxy) ->
            (forall wh, q <> send wh) /\ q <> delete).
  { intros q Hq. apply proxy_calls_only in Hq.
    destruct q; try contradiction; split; try intros wh; discriminate. }
  repeat split.
  - rewrite Hrun, H. reflexivity.
  - rewrite Hrun, H. reflexivity.
  - intros wh Hin. rewrite Hrun, H in Hin. simpl in Hin.
    now apply (proj1 (Hproxy _ Hin) wh).
  - intros Hin. rewrite Hrun, H in Hin. simpl in Hin.
    now apply (proj2 (Hproxy _ Hin)).
  - rewrite Hrun, H. fold (send wh). rewrite H0. reflexivity.
  - rewrite Hrun, H. fold (send wh). rewrite H0. reflexivity.
  - intros Hin. rewrite Hrun, H in Hin. fold (send wh) in Hin.
    rewrite H0 in Hin. unfold calls in Hin. simpl in Hin.
    rewrite map_app, in_app_iff in Hin. destruct Hin as [Hin | [Hin | []]].
    + now apply (proj2 (Hproxy _ Hin)).
    + discriminate Hin.
  - rewrite Hrun, H. fold (send wh). rewrite H0. simpl. exact H1.
  - rewrite Hrun, H. fold (send wh). rewrite H0. reflexivity.
Qed.

End Relay.

(* ===================================================================== *)
(** ** The reminder timer *)
(* ===================================================================== *)

Section Scheduler.

Variable Emoji : Type.
Variable cfg : Config Emoji.

(** What [on_bump_done] does after the sleep, by the three lookups. *)
Lemma send_reminder_run (w : World) (s : State) (tr : list (State * Request)) :
  run_from w (send_reminder cfg) s tr =
    match get_channel cfg (TERMINAL_CHANNEL_ID cfg) with
    | None => {| outcome := Err AttributeError; final := s; trace := tr |}
    | Some channel =>
        match get_emoji cfg "reminder" with
        | None => {| outcome := Err AttributeError; final := s; trace := tr |}
        | Some reminder =>
            match get_role cfg channel (BUMPER_ROLE_ID cfg) with
            | None => {| outcome := Err AttributeError; final := s; trace := tr |}
            | Some bumper =>
                let send := ChannelSend channel (role_mention bumper)
                              (reminder_embed cfg reminder) in
                {| outcome := w send; final := s;
                   trace := (tr ++ [(s, send)])%list |}
            end
        end
    end.
Proof.
  unfold send_reminder.
  destruct (get_channel cfg (TERMINAL_CHANNEL_ID cfg)) as [channel|]; [|reflexivity].
  simpl.
  destruct (get_emoji cfg "reminder") as [reminder|]; [|reflexivity].
  simpl.
  destruct (get_role cfg channel (BUMPER_ROLE_ID cfg)) as [bumper|]; [|reflexivity].
  simpl.
  destruct (w (ChannelSend _ _ _)); reflexivity.
Qed.

Lemma on_bump_done_run (w : World) (s : State) (delay : Z) :
  run w (on_bump_done cfg delay) s =
    run_from w (send_reminder cfg) (set_running false s)
      [(set_running true s, Sleep delay)].
Proof. reflexivity. Qed.

(** The run of the timer is the sleep, then at most the one send. *)
Lemma on_bump_done_shape (w : World) (s : State) (delay : Z) :
  let r := run w (on_bump_done cfg delay) s in
  final r = set_running false s
  /\ (trace r = [(set_running true s, Sleep delay)]
      \/ exists channel text embed,
           trace r = [(set_running true s, Sleep delay);
                      (set_running false s, ChannelSend channel text embed)]).
Proof.
  cbv zeta. rewrite on_bump_done_run, send_reminder_run.
  destruct (get_channel cfg (TERMINAL_CHANNEL_ID cfg)) as [channel|]; [|simpl; auto].
  destruct (get_emoji cfg "reminder") as [reminder|]; [|simpl; auto].
  destruct (get_role cfg channel (BUMPER_ROLE_ID cfg)) as [bumper|]; [|simpl; auto].
  simpl. split; [reflexivity |]. right. eauto.
Qed.

(** C6.  [on_bump_done(delay)] sets [running] and sleeps for [delay]:
    the sleep is its first call, made with [running] true and the rest of
    the state untouched.  What follows the sleep happens with [running]
    false, nothing sleeps again, and the run ends with [running] false.
    When the terminal channel, the bumper role and the [reminder] emoji
    are there, what follows is exactly the send of the reminder to that
    channel, and its result is the result of the run. *)
Theorem on_bump_done_arms_and_fires (w : World) (s : State) (delay : Z) :
  let r := run w (on_bump_done cfg delay) s in
  (exists rest,
     trace r = (set_running true s, Sleep delay) :: rest
     /\ running (set_running true s) = true
     /\ forall st q, In (st, q) rest ->
          running st = false /\ forall d, q <> Sleep d)
  /\ running (final r) = false
  /\ (forall channel bumper reminder,
       get_channel cfg (TERMINAL_CHANNEL_ID cfg) = Some channel ->
       get_role cfg channel (BUMPER_ROLE_ID cfg) = Some bumper ->
       get_emoji cfg "reminder" = Some reminder ->
       let send := ChannelSend channel (role_mention bumper)
                     (reminder_embed cfg reminder) in
       trace r = [(set_running true s, Sleep delay); (set_running false s, send)]
       /\ outcome r = w send).
Proof.
  intros r. destruct (on_bump_done_shape w s delay) as [Hfin Htr]. fold r in Hfin, Htr.
  split; [|split].
  - destruct Htr as [-> | [channel [text [embed ->]]]].
    + exists []. repeat split; intros; contradiction.
    + eexists. split; [reflexivity |]. split; [reflexivity |].
      intros st q [[= <- <-] | []]. split; [reflexivity | discriminate].
  - now rewrite Hfin.
  - intros channel bumper reminder Hc Hr He send. unfold r.
    rewrite on_bump_done_run, send_reminder_run, Hc, He, Hr. auto.
Qed.

(** C9, as the code has it.  A failure of the send of the reminder is
    not caught by [on_bump_done]: the coroutine ends with that exception.
    [running] is false by then, whatever happens to the send, and the run
    neither dispatches an event nor sleeps again, so no timer is armed. *)
Theorem reminder_failure_ends_run (w : World) (s : State) (delay : Z) :
  let r := run w (on_bump_done cfg delay) s in
  final r = set_running false s
  /\ running (final r) = false
  /\ (forall event arg, ~ In (Dispatch event arg) (calls r))
  /\ (forall d, ~ In (Sleep d) (tl (calls r)))
  /\ (forall channel bumper reminder x,
       get_channel cfg (TERMINAL_CHANNEL_ID cfg) = Some channel ->
       get_role cfg channel (BUMPER_ROLE_ID cfg) = Some bumper ->
       get_emoji cfg "reminder" = Some reminder ->
       w (ChannelSend channel (role_mention bumper) (reminder_embed cfg reminder))
         = Err x ->
       outcome r = Err x).
Proof.
  intros r. destruct (on_bump_done_shape w s delay) as [Hfin Htr]. fold r in Hfin, Htr.
  split; [exact Hfin |]. split; [now rewrite Hfin |]. split; [|split].
  - intros event arg. unfold calls.
    destruct Htr as [-> | [channel [text [embed ->]]]]; simpl;
      intuition discriminate.
  - intros d. unfold calls.
    destruct Htr as [-> | [channel [text [embed ->]]]]; simpl;
      intuition discriminate.
  - intros channel bumper reminder x Hc Hr He Hx. unfold r.
    rewrite on_bump_done_run, send_reminder_run, Hc, He, Hr. simpl. exact Hx.
Qed.

End Scheduler.

(* ===================================================================== *)
(** ** The startup delay *)
(* ===================================================================== *)

Module DoubleFacts.
Import Double.

Lemma round_half_even_bounds (n d : Z) :
  0 <= n -> 0 < d ->
  n / d <= round_half_even n d <= n / d + 1
  /\ (n mod d = 0 -> round_half_even n d = n / d).
Proof.
  intros Hn Hd. unfold round_half_even. cbv zeta.
  pose proof (Z.mod_pos_bound n d Hd) as Hm.
  destruct (2 * (n mod d) <? d) eqn:E1; [split; [lia | reflexivity] |].
  apply Z.ltb_ge in E1.
  destruct (d <? 2 * (n mod d)); [split; [lia | intros H0; lia] |].
  destruct (Z.even (n / d)); split; try lia; intros H0; lia.
Qed.

Lemma round_half_even_nonneg (n d : Z) :
  0 <= n -> 0 < d -> 0 <= round_half_even n d.
Proof.
  intros Hn Hd. pose proof (round_half_even_bounds n d Hn Hd) as [[H _] _].
  pose proof (Z.div_pos n d Hn Hd). lia.
Qed.

(** An integer bound on [n/d] bounds the rounded quotient. *)
Lemma round_half_even_between (n d lo hi : Z) :
  0 <= n -> 0 < d -> lo * d <= n <= hi * d ->
  lo <= round_half_even n d <= hi.
Proof.
  intros Hn Hd [Hlo Hhi].
  pose proof (round_half_even_bounds n d Hn Hd) as [[H1 H2] H3].
  split.
  - assert (lo <= n / d) by (apply Z.div_le_lower_bound; lia). lia.
  - assert (Hq : n / d <= hi) by (apply Z.div_le_upper_bound; lia).
    destruct (Z.eq_dec (n / d) hi) as [E | E]; [|lia].
    assert (Hmod : n mod d = 0).
    { pose proof (Z.div_mod n d ltac:(lia)) as Hdm.
      pose proof (Z.mod_pos_bound n d Hd). rewrite E in Hdm. nia. }
    rewrite (H3 Hmod). lia.
Qed.

Lemma ilog2_le_52 (p q : Z) :
  0 < p -> 0 < q -> p < 2 ^ 53 * q -> ilog2 p q <= 52.
Proof.
  intros Hp Hq Hlt. unfold ilog2. cbv zeta.
  set (L := Z.log2 p - Z.log2 q).
  pose proof (Z.log2_spec p Hp) as [Hp1 Hp2].
  pose proof (Z.log2_spec q Hq) as [Hq1 Hq2].
  pose proof (Z.log2_nonneg p). pose proof (Z.log2_nonneg q).
  destruct (Z_le_gt_dec L 52) as [HL | HL].
  { destruct (if 0 <=? L then _ else _); lia. }
  (* L >= 53 *)
  assert (H0L : (0 <=? L) = true) by (apply Z.leb_le; lia). rewrite H0L.
  destruct (q * 2 ^ L <=? p) eqn:E.
  - exfalso. apply Z.leb_le in E.
    assert (2 ^ 53 <= 2 ^ L) by (apply Z.pow_le_mono_r; lia). nia.
  - destruct (Z.eq_dec L 53) as [-> | HL53]; [lia |].
    exfalso.
    (* q * 2^(L-1) < 2^(log2 p) <= p, and L - 1 >= 53 *)
    assert (HE : q * 2 ^ (L - 1) < 2 ^ Z.log2 p).
    { replace (Z.log2 p) with (Z.succ (Z.log2 q) + (L - 1)) by (unfold L; lia).
      rewrite Z.pow_add_r by lia.
      assert (0 < 2 ^ (L - 1)) by (apply Z.pow_pos_nonneg; lia). nia. }
    assert (2 ^ 53 <= 2 ^ (L - 1)) by (apply Z.pow_le_mono_r; lia). nia.
Qed.

Lemma round_pos_den (p q : Z) : 0 < den (round_pos p q).
Proof.
  unfold round_pos. cbv zeta.
  destruct (0 <=? Z.max (ilog2 p q - 52) (-1074)) eqn:E; simpl; [lia |].
  apply Z.leb_gt in E. apply Z.pow_pos_nonneg; lia.
Qed.

Lemma round_pos_nonneg (p q : Z) :
  0 < p -> 0 < q -> 0 <= num (round_pos p q).
Proof.
  intros Hp Hq. unfold round_pos. cbv zeta.
  destruct (0 <=? Z.max (ilog2 p q - 52) (-1074)) eqn:E; simpl.
  - apply Z.leb_le in E.
    assert (0 < 2 ^ Z.max (ilog2 p q - 52) (-1074)) by (apply Z.pow_pos_nonneg; lia).
    apply Z.mul_nonneg_nonneg; [|lia].
    apply round_half_even_nonneg; nia.
  - apply Z.leb_gt in E.
    assert (0 < 2 ^ (- Z.max (ilog2 p q - 52) (-1074))) by (apply Z.pow_pos_nonneg; lia).
    apply round_half_even_nonneg; nia.
Qed.

(** Below [2^53] the spacing of the doubles is at most one: integer
    bounds on [p/q] are bounds on the rounded value. *)
Lemma round_pos_between (p q lo hi : Z) :
  0 < p -> 0 < q -> lo * q <= p <= hi * q -> hi < 2 ^ 53 ->
  lo * den (round_pos p q) <= num (round_pos p q) <= hi * den (round_pos p q).
Proof.
  intros Hp Hq [Hlo Hhi] Hbig.
  assert (HE : ilog2 p q <= 52) by (apply ilog2_le_52; nia).
  unfold round_pos. cbv zeta.
  set (e := Z.max (ilog2 p q - 52) (-1074)).
  assert (He : e <= 0) by (unfold e; lia).
  destruct (0 <=? e) eqn:E; simpl.
  - apply Z.leb_le in E. assert (e = 0) as -> by lia.
    change (2 ^ 0) with 1. rewrite !Z.mul_1_r.
    apply round_half_even_between; lia.
  - assert (Hpow : 0 < 2 ^ (- e)) by (apply Z.pow_pos_nonneg; lia).
    apply round_half_even_between; nia.
Qed.

Lemma round_den (p q : Z) : 0 < den (round p q).
Proof.
  unfold round. destruct (p =? 0); [simpl; lia |].
  destruct (0 <? p); [apply round_pos_den | simpl; apply round_pos_den].
Qed.

Lemma round_between (p q lo hi : Z) :
  0 < q -> lo * q <= p <= hi * q -> - 2 ^ 53 < lo -> hi < 2 ^ 53 ->
  lo * den (round p q) <= num (round p q) <= hi * den (round p q).
Proof.
  intros Hq [Hlo Hhi] Hl Hh. unfold round.
  destruct (p =? 0) eqn:E0.
  - apply Z.eqb_eq in E0. subst p. simpl. nia.
  - apply Z.eqb_neq in E0. destruct (0 <? p) eqn:Ep.
    + apply Z.ltb_lt in Ep. now apply round_pos_between.
    + apply Z.ltb_ge in Ep. simpl.
      pose proof (round_pos_between (- p) q (- hi) (- lo)
                    ltac:(lia) Hq ltac:(lia) ltac:(lia)). lia.
Qed.

Lemma round_nonneg (p q : Z) : 0 <= p -> 0 < q -> 0 <= num (round p q).
Proof.
  intros Hp Hq. unfold round. destruct (p =? 0) eqn:E0; [simpl; lia |].
  apply Z.eqb_neq in E0. destruct (0 <? p) eqn:Ep.
  - apply round_pos_nonneg; lia.
  - apply Z.ltb_ge in Ep. lia.
Qed.

End DoubleFacts.

Module DelayFacts.
Import Double DoubleFacts Delay.

(** The delay between the whole seconds next to the exact value: with
    [now - prev] between [f] and [f + 1] seconds, the delay is [7200 - f]
    or one less, and never negative. *)
Lemma initial_delay_bounds (now prev : Z) :
  Z.abs (now - prev) < span ->
  Z.max 0 (period + (prev - now) / us) <= initial_delay now prev
    <= Z.max 0 (period - (now - prev) / us).
Proof.
  intros Hspan. unfold initial_delay, total_seconds, ge_int, int_sub, to_int.
  cbv zeta.
  set (a := now - prev) in *.
  replace (prev - now) with (- a) by (unfold a; lia).
  assert (Hus : 0 < us) by reflexivity.
  pose proof (Z.div_mod a us ltac:(lia)) as Hf.
  pose proof (Z.mod_pos_bound a us Hus) as Hfm.
  pose proof (Z.div_mod (- a) us ltac:(lia)) as Hc.
  pose proof (Z.mod_pos_bound (- a) us Hus) as Hcm.
  set (f := a / us) in *. set (c := (- a) / us) in *.
  assert (Hbig : - 2 ^ 52 < f /\ f < 2 ^ 52 /\ - 2 ^ 52 < c /\ c < 2 ^ 52).
  { unfold span, us in *. change (2 ^ 52) with 4503599627370496. lia. }
  pose proof (round_den a us) as Hden.
  pose proof (round_between a us f (- c) Hus) as Hd.
  assert (Hd' : f * den (round a us) <= num (round a us) <= - c * den (round a us)).
  { apply Hd; [lia | |]; change (2 ^ 53) with 9007199254740992;
      change (2 ^ 52) with 4503599627370496 in Hbig; lia. }
  clear Hd. set (d := round a us) in *.
  destruct (period * den d <=? num d) eqn:E.
  - apply Z.leb_le in E. unfold period in *. nia.
  - apply Z.leb_gt in E.
    set (z := period * den d - num d) in *.
    pose proof (round_den z (den d)) as Hden'.
    pose proof (round_between z (den d) (period + c) (period - f) Hden) as Hr.
    assert (Hr' : (period + c) * den (round z (den d)) <= num (round z (den d))
                  <= (period - f) * den (round z (den d))).
    { apply Hr; [unfold z; nia | |]; change (2 ^ 53) with 9007199254740992;
        change (2 ^ 52) with 4503599627370496 in Hbig; unfold period; lia. }
    clear Hr.
    pose proof (round_nonneg z (den d) ltac:(unfold z; lia) Hden) as Hnn.
    set (r := round z (den d)) in *.
    rewrite Z.quot_div_nonneg by lia.
    assert (H1 : period + c <= num r / den r) by (apply Z.div_le_lower_bound; lia).
    assert (H2 : num r / den r <= period - f) by (apply Z.div_le_upper_bound; lia).
    assert (H3 : 0 <= num r / den r) by (apply Z.div_pos; lia).
    assert (f < period) by (unfold period in *; nia).
    lia.
Qed.



(** On whole seconds nothing is lost. *)
Lemma initial_delay_seconds (now prev elapsed : Z) :
  Z.abs (now - prev) < span ->
  now - prev = elapsed * us ->
  initial_delay now prev = Z.max 0 (period - elapsed).
Proof.
  intros H E. pose proof (initial_delay_bounds now prev H) as Hb.
  replace (prev - now) with (- elapsed * us) in Hb by lia.
  rewrite E in Hb. rewrite !Z.div_mul in Hb by discriminate. lia.
Qed.


End DelayFacts.

(* ===================================================================== *)
(** ** Startup and the message dispatcher *)
(* ===================================================================== *)

Section Dispatcher.

Variable Emoji : Type.
Variable cfg : Config Emoji.



(** With no stored bump time the subtraction of [on_ready] raises; no
    delay is computed and nothing is dispatched. *)
Remark on_ready_without_bump_time (w : World) (s : State) :
  MAINTENANCE_MODE s = false ->
  get_bump_time s = None ->
  outcome (run w (on_ready cfg) s) = Err TypeError
  /\ calls (run w (on_ready cfg) s) = [Now].
Proof.
  intros Hm Hp. unfold calls, run, on_ready. simpl. rewrite Hm. simpl.
  unfold get_bump_time in *. simpl. rewrite Hp. simpl. auto.
Qed.

Lemma on_message_bump_run (w : World) (s : State) (m : Message)
    (e : Embed) (rest : list Embed) (d : string) :
  outside_maintenance s m = false ->
  has_webhook_id m = true ->
  user_id (message_author m) = DISBOARD_ID cfg ->
  message_embeds m = e :: rest ->
  embed_description e = Some d ->
  PyStr.contains "Bump done" d = true ->
  run w (on_message cfg m) s =
    {| outcome := Ok tt;
       final := update_bump_time (w Now) s;
       trace := [(s, Now);
                 (update_bump_time (w Now) s, Dispatch "bump_done" 7200)] |}.
Proof.
  intros Hm Hw Ha He Hd Hb. unfold run, on_message, bump_confirmation. simpl.
  rewrite Hm, Hw, Ha, Z.eqb_refl, He, Hd, Hb. simpl.
  destruct (w (Dispatch "bump_done" 7200)). reflexivity.
Qed.

(** C7.  For a webhook message of Disboard whose first embed says
    [Bump done], and that the maintenance test lets through, [on_message]
    reads the clock, stores that time as the bump time, and then
    dispatches [bump_done] with 7200, the full period: the dispatch is
    made with the new time already stored, a read of the store after the
    handler gives that time, and the dispatched handler is
    [on_bump_done(7200)], which starts by sleeping 7200 seconds with
    [running] set. *)
Theorem bump_confirmation_rearms (w : World) (s : State) (m : Message)
    (e : Embed) (rest : list Embed) (d : string) :
  outside_maintenance s m = false ->
  has_webhook_id m = true ->
  user_id (message_author m) = DISBOARD_ID cfg ->
  message_embeds m = e :: rest ->
  embed_description e = Some d ->
  PyStr.contains "Bump done" d = true ->
  let now := w Now in
  let r := run w (on_message cfg m) s in
  outcome r = Ok tt
  /\ trace r = [(s, Now); (update_bump_time now s, Dispatch "bump_done" 7200)]
  /\ get_bump_time (update_bump_time now s) = Some now
  /\ get_bump_time (final r) = Some now
  /\ 7200 = Delay.period
  /\ dispatched cfg "bump_done" 7200 = Some (on_bump_done cfg 7200)
  /\ hd_error (trace (run w (on_bump_done cfg 7200) (final r)))
     = Some (set_running true (final r), Sleep 7200).
Proof.
  intros Hm Hw Ha He Hd Hb now r.
  unfold r. rewrite (on_message_bump_run w s m e rest d Hm Hw Ha He Hd Hb).
  simpl. repeat split.
  rewrite on_bump_done_run, send_reminder_run.
  destruct (get_channel cfg (TERMINAL_CHANNEL_ID cfg)) as [channel|]; [|reflexivity].
  destruct (get_emoji cfg "reminder") as [reminder|]; [|reflexivity].
  destruct (get_role cfg channel (BUMPER_ROLE_ID cfg)); reflexivity.
Qed.

(** C10.  A message with a webhook id is never handed to
    [_animated_emojis]: whatever its content, [on_message] leaves the
    content as it is, sends nothing through a webhook, lists or creates no
    webhook and deletes nothing.  The only calls it can make are those of
    a bump confirmation. *)
Theorem webhook_message_not_relayed (w : World) (s : State) (m : Message) :
  has_webhook_id m = true ->
  let r := run w (on_message cfg m) s in
  content (final r) = content s
  /\ (forall q, In q (calls r) -> q = Now \/ q = Dispatch "bump_done" 7200)
  /\ (forall wh text name avatar, ~ In (WebhookSend wh text name avatar) (calls r))
  /\ (forall i, ~ In (MessageDelete i) (calls r))
  /\ (forall ch, ~ In (ChannelWebhooks ch) (calls r))
  /\ (forall ch name avatar reason, ~ In (CreateWebhook ch name avatar reason) (calls r)).
Proof.
  intros Hw r.
  assert (H : content (final r) = content s
              /\ forall q, In q (calls r) -> q = Now \/ q = Dispatch "bump_done" 7200).
  { unfold r, calls, run, on_message, bump_confirmation. simpl. rewrite Hw.
    destruct (outside_maintenance s m); [simpl; tauto |].
    destruct (user_id (message_author m) =? DISBOARD_ID cfg); [|simpl; tauto].
    destruct (message_embeds m) as [|e rest]; [simpl; tauto |].
    destruct (embed_description e) as [d|]; [|simpl; tauto].
    destruct (PyStr.contains "Bump done" d); simpl; [|tauto].
    split; [reflexivity |]. intros q [<- | [<- | []]]; auto. }
  destruct H as [Hc Hq]. split; [exact Hc |]. split; [exact Hq |].
  repeat split; intros; intro Hin; destruct (Hq _ Hin); discriminate.
Qed.

End Dispatcher.

Example split_words :
  PyStr.split "  hello :smile:  world :smile: "
  = ["hello"; ":smile:"; "world"; ":smile:"].
Proof. reflexivity. Qed.

Example replace_leftmost : PyStr.replace "aa" "b" "aaaxaa" = "baxb".
Proof. reflexivity. Qed.

Example relay_smile :
  run Demo.calm (on_message Demo.cfg Demo.from_alice) (Demo.state "hi :smile: :nope:")
  = {| outcome := Ok tt;
       final := Demo.state "hi <a:smile:7> :nope:";
       trace :=
         [ (Demo.state "hi <a:smile:7> :nope:", ChannelWebhooks Demo.lobby);
           (Demo.state "hi <a:smile:7> :nope:",
            WebhookSend Demo.own "hi <a:smile:7> :nope:" "alice" "alice.png");
           (Demo.state "hi <a:smile:7> :nope:", MessageDelete 100) ] |}.
Proof. reflexivity. Qed.

(** Doubles at work: with the stored time 20000000000 seconds less one
    microsecond after the clock, [total_seconds()] is rounded to whole
    seconds and the delay is one more than the exact value cut to whole
    seconds; half a second after the clock, the delay is 7200. *)
Example delay_far_ahead :
  Delay.initial_delay 0 (20000000000 * Delay.us - 1) = 20000007200
  /\ Z.quot (Delay.period * Delay.us - (0 - (20000000000 * Delay.us - 1))) Delay.us
     = 20000007199
  /\ Delay.initial_delay 0 500000 = 7200.
Proof. repeat split. Qed.

(** A message with the word [::] alone goes through the relay untouched. *)
Example relay_empty_token :
  run Demo.calm (on_message Demo.cfg Demo.from_alice) (Demo.state "a :: b")
  = {| outcome := Ok tt; final := Demo.state "a :: b"; trace := [] |}.
Proof. reflexivity. Qed.

(** In maintenance mode a bump confirmation outside the maintenance
    channel stops at the first test of [on_message]. *)
Example maintenance_ignores_bump :
  run Demo.calm (on_message Demo.cfg Demo.bump_done) (Demo.maintenance "")
  = {| outcome := Ok tt; final := Demo.maintenance ""; trace := [] |}.
Proof. reflexivity. Qed.

(* ===================================================================== *)
(** ** The theorems on the small server *)
(* ===================================================================== *)



Lemma scan_smile_twice_witness :
  get_emoji Demo.cfg "smile" = Some "<a:smile:7>"
  /\ text (scan Demo.cfg "hello :smile: world :smile:")
     = "hello <a:smile:7> world <a:smile:7>"
  /\ lookups (scan Demo.cfg "hello :smile: world :smile:") = ["smile"].
Proof.
  destruct (scan_smile_twice string Demo.cfg "<a:smile:7>" eq_refl)
    as [Htext [Hlook _]].
  split; [reflexivity |]. split; [exact Htext | exact Hlook].
Defined.

Lemma relay_without_resolution_is_idle_witness :
  run Demo.calm (_animated_emojis Demo.cfg Demo.from_alice) (Demo.state "hi :nope:")
  = {| outcome := Ok tt; final := Demo.state "hi :nope:"; trace := [] |}
  /\ run Demo.calm (on_message Demo.cfg Demo.from_alice) (Demo.state "hi :nope:")
     = {| outcome := Ok tt; final := Demo.state "hi :nope:"; trace := [] |}.
Proof.
  assert (Hmiss : forall name, name <> "" ->
            In (token name) (PyStr.split (content (Demo.state "hi :nope:"))) ->
            get_emoji Demo.cfg name = None).
  { intros name _ [H | [H | []]].
    - discriminate H.
    - apply (ScanFacts.token_inj "nope" name) in H. subst name. reflexivity. }
  destruct (relay_without_resolution_is_idle string Demo.cfg Demo.calm
              (Demo.state "hi :nope:") Demo.from_alice Hmiss) as [H1 H2].
  split; [exact H1 | apply H2; reflexivity].
Defined.

(** The send through the webhook fails: [on_message] ends with the
    exception of the send; nothing in the handler has caught it. *)
Lemma relay_send_failure_not_caught :
  run Demo.no_sending (on_message Demo.cfg Demo.from_alice) (Demo.state "hi :smile:")
  = {| outcome := Err HTTPException;
       final := Demo.state "hi <a:smile:7>";
       trace :=
         [ (Demo.state "hi <a:smile:7>", ChannelWebhooks Demo.lobby);
           (Demo.state "hi <a:smile:7>",
            WebhookSend Demo.own "hi <a:smile:7>" "alice" "alice.png") ] |}
  /\ outcome (run Demo.no_sending (_animated_emojis Demo.cfg Demo.from_alice)
                (Demo.state "hi :smile:")) <> Ok tt.
Proof. split; [reflexivity | discriminate]. Qed.

Lemma relay_failure_ends_run_witness :
  emoji (scan Demo.cfg (content (Demo.state "hi :smile:"))) = Some "<a:smile:7>"
  /\ outcome (run Demo.no_listing (_animated_emojis Demo.cfg Demo.from_alice)
                (Demo.state "hi :smile:")) = Err HTTPException
  /\ (outcome (run Demo.no_sending (_animated_emojis Demo.cfg Demo.from_alice)
                 (Demo.state "hi :smile:")) = Err HTTPException
      /\ ~ In (MessageDelete 100)
             (calls (run Demo.no_sending (_animated_emojis Demo.cfg Demo.from_alice)
                       (Demo.state "hi :smile:"))))
  /\ outcome (run Demo.no_deleting (_animated_emojis Demo.cfg Demo.from_alice)
                (Demo.state "hi :smile:")) = Err HTTPException.
Proof.
  split; [reflexivity |]. split; [|split].
  - destruct (relay_failure_ends_run string Demo.cfg Demo.no_listing
                (Demo.state "hi :smile:") Demo.from_alice "<a:smile:7>" eq_refl)
      as [H _].
    exact (proj1 (H HTTPException eq_refl)).
  - destruct (relay_failure_ends_run string Demo.cfg Demo.no_sending
                (Demo.state "hi :smile:") Demo.from_alice "<a:smile:7>" eq_refl)
      as [_ [H _]].
    destruct (H Demo.own HTTPException eq_refl eq_refl) as [Ho [_ Hd]].
    split; [exact Ho | exact Hd].
  - destruct (relay_failure_ends_run string Demo.cfg Demo.no_deleting
                (Demo.state "hi :smile:") Demo.from_alice "<a:smile:7>" eq_refl)
      as [_ [_ H]].
    exact (proj1 (H Demo.own tt HTTPException eq_refl eq_refl eq_refl)).
Defined.

Lemma get_or_create_webhook_spec_witness :
  Demo.calm (ChannelWebhooks Demo.lobby) = Ok [Demo.foreign; Demo.own]
  /\ outcome (run Demo.calm (get_or_create_webhook Demo.cfg Demo.from_alice)
                (Demo.state "")) = Ok Demo.own
  /\ Demo.no_webhook_yet (ChannelWebhooks Demo.lobby) = Ok [Demo.foreign]
  /\ calls (run Demo.no_webhook_yet (get_or_create_webhook Demo.cfg Demo.from_alice)
              (Demo.state ""))
     = [ChannelWebhooks Demo.lobby; AvatarRead "alice.png";
        CreateWebhook Demo.lobby "iCODE-BOT" "PNG" "Animated Emoji Usage"].
Proof.
  split; [reflexivity |]. split; [|split; [reflexivity |]].
  - destruct (get_or_create_webhook_spec string Demo.cfg Demo.calm (Demo.state "")
                Demo.from_alice [Demo.foreign; Demo.own] eq_refl) as [H _].
    destruct (H Demo.own (or_intror (or_introl eq_refl)) eq_refl)
      as [own [before [after [_ [_ [_ Hrun]]]]]].
    rewrite Hrun. exact (eq_sym (f_equal outcome Hrun)).
  - destruct (get_or_create_webhook_spec string Demo.cfg Demo.no_webhook_yet
                (Demo.state "") Demo.from_alice [Demo.foreign] eq_refl) as [_ H].
    assert (Hnone : forall x, In x [Demo.foreign] ->
              webhook_user x <> self_user_id Demo.cfg).
    { intros x [<- | []]. discriminate. }
    unfold calls. rewrite (H Hnone "PNG" eq_refl). reflexivity.
Defined.

Lemma on_bump_done_arms_and_fires_witness :
  get_channel Demo.cfg (TERMINAL_CHANNEL_ID Demo.cfg) = Some Demo.terminal
  /\ trace (run Demo.calm (on_bump_done Demo.cfg 6200) (Demo.state ""))
     = [ (set_running true (Demo.state ""), Sleep 6200);
         (Demo.state "",
          ChannelSend Demo.terminal "<@&20>" (reminder_embed Demo.cfg "<:reminder:8>")) ]
  /\ outcome (run Demo.calm (on_bump_done Demo.cfg 6200) (Demo.state "")) = Ok tt.
Proof.
  destruct (on_bump_done_arms_and_fires string Demo.cfg Demo.calm (Demo.state "") 6200)
    as [_ [_ H]].
  destruct (H Demo.terminal Demo.bumper "<:reminder:8>" eq_refl eq_refl eq_refl)
    as [Htr Ho].
  split; [reflexivity |]. split; [exact Htr | exact Ho].
Defined.

(** The send of the reminder fails: [on_bump_done] ends with the
    exception of the send; nothing in the handler has caught it. *)
Lemma reminder_failure_not_caught :
  outcome (run Demo.no_reminder (on_bump_done Demo.cfg 0) (Demo.state ""))
  = Err HTTPException
  /\ outcome (run Demo.no_reminder (on_bump_done Demo.cfg 0) (Demo.state ""))
     <> Ok tt.
Proof. split; [reflexivity | discriminate]. Qed.

Lemma reminder_failure_ends_run_witness :
  Demo.no_reminder
    (ChannelSend Demo.terminal "<@&20>" (reminder_embed Demo.cfg "<:reminder:8>"))
  = Err HTTPException
  /\ outcome (run Demo.no_reminder (on_bump_done Demo.cfg 0) (Demo.state ""))
     = Err HTTPException
  /\ running (final (run Demo.no_reminder (on_bump_done Demo.cfg 0) (Demo.state "")))
     = false.
Proof.
  destruct (reminder_failure_ends_run string Demo.cfg Demo.no_reminder
              (Demo.state "") 0) as [_ [Hrun [_ [_ H]]]].
  split; [reflexivity |]. split; [|exact Hrun].
  exact (H Demo.terminal Demo.bumper "<:reminder:8>" HTTPException
           eq_refl eq_refl eq_refl eq_refl).
Defined.

Lemma bump_confirmation_rearms_witness :
  outside_maintenance (Demo.state "") Demo.bump_done = false
  /\ has_webhook_id Demo.bump_done = true
  /\ trace (run Demo.calm (on_message Demo.cfg Demo.bump_done) (Demo.state ""))
     = [ (Demo.state "", Now);
         (update_bump_time 1000000000 (Demo.state ""), Dispatch "bump_done" 7200) ]
  /\ get_bump_time
       (final (run Demo.calm (on_message Demo.cfg Demo.bump_done) (Demo.state "")))
     = Some 1000000000.
Proof.
  destruct (bump_confirmation_rearms string Demo.cfg Demo.calm (Demo.state "")
              Demo.bump_done _ _ _ eq_refl eq_refl eq_refl eq_refl eq_refl eq_refl)
    as [_ [Htr [_ [Hget _]]]].
  split; [reflexivity |]. split; [reflexivity |]. split; [exact Htr | exact Hget].
Defined.

Lemma webhook_message_not_relayed_witness :
  has_webhook_id Demo.relayed = true
  /\ content (final (run Demo.calm (on_message Demo.cfg Demo.relayed)
                       (Demo.state "again :smile:"))) = "again :smile:"
  /\ ~ In (MessageDelete 102)
         (calls (run Demo.calm (on_message Demo.cfg Demo.relayed)
                   (Demo.state "again :smile:"))).
Proof.
  destruct (webhook_message_not_relayed string Demo.cfg Demo.calm
              (Demo.state "again :smile:") Demo.relayed eq_refl)
    as [Hc [_ [_ [Hd _]]]].
  split; [reflexivity |]. split; [exact Hc | exact (Hd 102)].
Defined.

(* ===================================================================== *)
(** ** More on the startup delay *)
(* ===================================================================== *)

(** X1.  The moment the startup timer fires, [now + delay], against the
    moment the reminder is due, 7200 seconds after the stored bump time,
    for two [datetime]s: when the reminder is already due the timer fires
    at once; otherwise it fires less than one second away from the due
    moment, and exactly at the due moment when a whole number of seconds
    is left.  This holds as well for a stored time that lies after the
    clock. *)
Theorem initial_delay_fire_time (now prev : Z) :
  Z.abs (now - prev) < Delay.span ->
  let due := prev + Delay.period * Delay.us in
  let fire := now + Delay.initial_delay now prev * Delay.us in
  (due <= now -> fire = now)
  /\ (now < due -> due - Delay.us < fire < due + Delay.us)
  /\ (now < due -> (due - now) mod Delay.us = 0 -> fire = due).
Proof.
  intros Hspan due fire.
  pose proof (DelayFacts.initial_delay_bounds now prev Hspan) as Hb.
  assert (Hus : 0 < Delay.us) by reflexivity.
  pose proof (Z.div_mod (now - prev) Delay.us ltac:(lia)) as Hf.
  pose proof (Z.mod_pos_bound (now - prev) Delay.us Hus) as Hfm.
  pose proof (Z.div_mod (prev - now) Delay.us ltac:(lia)) as Hc.
  pose proof (Z.mod_pos_bound (prev - now) Delay.us Hus) as Hcm.
  unfold fire, due. split; [|split].
  - intros Hdue. unfold Delay.period in *. nia.
  - intros Hdue. unfold Delay.period in *. nia.
  - intros Hdue Hmod.
    assert (E : now - prev
                = (Delay.period - (prev + Delay.period * Delay.us - now) / Delay.us)
                  * Delay.us).
    { pose proof (Z.div_mod (prev + Delay.period * Delay.us - now) Delay.us
                    ltac:(lia)) as Hd. rewrite Hmod in Hd. lia. }
    rewrite (DelayFacts.initial_delay_seconds now prev _ Hspan E).
    assert (0 <= (prev + Delay.period * Delay.us - now) / Delay.us)
      by (apply Z.div_pos; lia).
    rewrite Z.max_r by lia. lia.
Qed.

Lemma initial_delay_fire_time_witness :
  Z.abs (0 - 5 * Delay.us) < Delay.span
  /\ (0 < 5 * Delay.us + Delay.period * Delay.us
      /\ 0 + Delay.initial_delay 0 (5 * Delay.us) * Delay.us
         = 5 * Delay.us + Delay.period * Delay.us)
  /\ (0 + Delay.period * Delay.us <= 9000 * Delay.us
      /\ 9000 * Delay.us + Delay.initial_delay (9000 * Delay.us) 0 * Delay.us
         = 9000 * Delay.us)
  /\ (1500000 < 0 + Delay.period * Delay.us
      /\ 0 + Delay.period * Delay.us - Delay.us
         < 1500000 + Delay.initial_delay 1500000 0 * Delay.us
         < 0 + Delay.period * Delay.us + Delay.us).
Proof.
  assert (S1 : Z.abs (0 - 5 * Delay.us) < Delay.span) by reflexivity.
  assert (S2 : Z.abs (9000 * Delay.us - 0) < Delay.span) by reflexivity.
  assert (S3 : Z.abs (1500000 - 0) < Delay.span) by reflexivity.
  destruct (initial_delay_fire_time 0 (5 * Delay.us) S1) as [_ [_ H1]].
  destruct (initial_delay_fire_time (9000 * Delay.us) 0 S2) as [H2 _].
  destruct (initial_delay_fire_time 1500000 0 S3) as [_ [H3 _]].
  split; [exact S1 |]. split; [|split]; split.
  - reflexivity.
  - apply H1; reflexivity.
  - discriminate.
  - apply H2. discriminate.
  - reflexivity.
  - apply H3. reflexivity.
Defined.

(* ===================================================================== *)
(** ** Invariants of the token scan *)
(* ===================================================================== *)

Section ScanInvariants.
Import PyStr PyStrFacts ScanFacts.

Variable Emoji : Type.
Variable cfg : Config Emoji.

(** The three ways one turn of the loop can go. *)
Lemma scan_word_cases (st : Scan Emoji) (w : string) :
  (candidate w (temp st) = false /\ scan_word cfg st w = st)
  \/ (exists name,
        name <> "" /\ w = token name /\ ~ In w (temp st)
        /\ ((exists e, get_emoji cfg name = Some e
                       /\ scan_word cfg st w =
                            {| text := replace w (emoji_str cfg e) (text st);
                               temp := temp st ++ [w];
                               emoji := Some e;
                               lookups := lookups st ++ [name] |})
            \/ (get_emoji cfg name = None
                /\ scan_word cfg st w =
                     {| text := text st; temp := temp st; emoji := emoji st;
                        lookups := lookups st ++ [name] |}))).
Proof.
  destruct (candidate w (temp st)) eqn:Hc.
  - right. apply (candidate_iff w (temp st)) in Hc.
    destruct Hc as [[name [Hne ->]] Hnew].
    exists name. repeat split; auto.
    destruct (get_emoji cfg name) as [e|] eqn:He.
    + left. exists e. split; [reflexivity |]. now apply scan_word_hit.
    + right. split; [reflexivity |]. now apply scan_word_miss.
  - left. split; [reflexivity |]. now apply scan_word_skip.
Qed.

Lemma fold_scan_ind (P : Scan Emoji -> Prop) :
  (forall st w, P st -> P (scan_word cfg st w)) ->
  forall ws st, P st -> P (fold_left (scan_word cfg) ws st).
Proof.
  intros Hstep ws. induction ws as [|w ws IH]; intros st Hst; simpl; auto.
Qed.

Lemma count_one (x y : string) :
  count_occ string_dec [x] y = if string_dec x y then 1%nat else 0%nat.
Proof. simpl. destruct (string_dec x y); reflexivity. Qed.

Lemma scan_inv_start (c : string) : scan_inv cfg (scan_start c).
Proof.
  unfold scan_inv, scan_start. simpl. repeat split.
  - intros w [].
  - constructor.
  - intros H. now elim H.
Qed.

Lemma scan_inv_step (st : Scan Emoji) (w : string) :
  scan_inv cfg st -> scan_inv cfg (scan_word cfg st w).
Proof.
  intros Hinv.
  destruct (scan_word_cases st w)
    as [[_ ->] | [name [Hne [-> [Hnew [[e [He ->]] | [He ->]]]]]]];
    [exact Hinv | |];
    destruct Hinv as [Htok [Hnd [Hem Hcnt]]]; unfold scan_inv; simpl.
  - repeat split.
    + intros w' Hin. apply in_app_iff in Hin. destruct Hin as [Hin | [<- | []]].
      * now apply Htok.
      * exists name, e. auto.
    + apply NoDup_app; [exact Hnd | repeat constructor; intros [] |].
      intros a Ha [<- | []]. now apply Hnew.
    + intros _. now exists e.
    + intros n e' Hn. rewrite !count_occ_app, !count_one, (Hcnt n e' Hn).
      f_equal.
      destruct (string_dec name n) as [E | Hd];
        destruct (string_dec (token name) (token n)) as [Ht | Ht];
        try reflexivity.
      * elim Ht. now rewrite E.
      * elim Hd. now apply token_inj.
  - repeat split; auto.
    intros n e' Hn. rewrite count_occ_app, count_one, (Hcnt n e' Hn).
    destruct (string_dec name n) as [-> | Hd]; [congruence | lia].
Qed.

Lemma scan_inv_fold (ws : list string) (st : Scan Emoji) :
  scan_inv cfg st -> scan_inv cfg (fold_left (scan_word cfg) ws st).
Proof. apply (fold_scan_ind (scan_inv cfg)). intros; now apply scan_inv_step. Qed.

Lemma scan_inv_scan (c : string) : scan_inv cfg (scan cfg c).
Proof. unfold scan. apply scan_inv_fold, scan_inv_start. Qed.

(** [temp] only grows, and only by words of the message. *)
Lemma temp_grows (ws : list string) :
  forall (st : Scan Emoji) x,
    In x (temp st) -> In x (temp (fold_left (scan_word cfg) ws st)).
Proof.
  induction ws as [|w ws IH]; intros st x Hin; simpl; [exact Hin |].
  apply IH.
  destruct (scan_word_cases st w)
    as [[_ ->] | [name [_ [_ [_ [[e [_ ->]] | [_ ->]]]]]]]; simpl; auto.
  apply in_app_iff. now left.
Qed.

Lemma temp_from_words (ws : list string) :
  forall (st : Scan Emoji) x,
    In x (temp (fold_left (scan_word cfg) ws st)) -> In x (temp st) \/ In x ws.
Proof.
  induction ws as [|w ws IH]; intros st x Hin; simpl in *; [now left |].
  destruct (IH _ _ Hin) as [H | H]; [|now right; right].
  destruct (scan_word_cases st w)
    as [[_ E] | [name [_ [_ [_ [[e [_ E]] | [_ E]]]]]]];
    rewrite E in H; simpl in H; auto.
  apply in_app_iff in H. destruct H as [H | [<- | []]]; auto.
Qed.

(** A word that resolves is in [temp] once the loop has passed it. *)
Lemma resolved_in_temp (ws : list string) (name : string) (e : Emoji) :
  name <> "" -> get_emoji cfg name = Some e ->
  forall st : Scan Emoji,
    In (token name) ws ->
    In (token name) (temp (fold_left (scan_word cfg) ws st)).
Proof.
  intros Hne He. induction ws as [|w ws IH]; intros st Hin; [destruct Hin |].
  simpl. destruct Hin as [-> | Hin]; [|now apply IH].
  apply temp_grows.
  destruct (in_dec string_dec (token name) (temp st)) as [Hold | Hnew].
  - destruct (scan_word_cases st (token name))
      as [[_ ->] | [n [_ [_ [Hn _]]]]]; [exact Hold | now elim Hn].
  - rewrite (scan_word_hit Emoji cfg st name e Hne Hnew He). simpl.
    apply in_app_iff. right. now left.
Qed.

(** A name that misses is looked up at each of its words. *)
Lemma miss_lookups (name : string) :
  name <> "" -> get_emoji cfg name = None ->
  forall ws (st : Scan Emoji),
    scan_inv cfg st ->
    count_occ string_dec (lookups (fold_left (scan_word cfg) ws st)) name
    = (count_occ string_dec (lookups st) name
       + count_occ string_dec ws (token name))%nat.
Proof.
  intros Hne Hmiss. induction ws as [|w ws IH]; intros st Hinv; simpl fold_left.
  - simpl. lia.
  - rewrite (IH _ (scan_inv_step st w Hinv)).
    destruct (scan_word_cases st w)
      as [[Hc ->] | [n [Hn [-> [Hnew [[e [He ->]] | [He ->]]]]]]].
    + assert (Hw : w <> token name).
      { intros ->.
        assert (candidate (token name) (temp st) = true) as Hc'.
        { apply candidate_iff. split; [now exists name |].
          intros Hin. destruct Hinv as [Htok _].
          destruct (Htok _ Hin) as [n [e [_ [Ht He]]]].
          apply token_inj in Ht. subst n. congruence. }
        congruence. }
      rewrite (count_occ_cons_neq string_dec ws Hw). reflexivity.
    + simpl lookups. rewrite count_occ_app, count_one.
      assert (Hd : n <> name) by congruence.
      destruct (string_dec n name) as [E | _]; [now elim Hd |].
      rewrite count_occ_cons_neq; [lia |].
      intros Ht. apply token_inj in Ht. now elim Hd.
    + simpl lookups. rewrite count_occ_app, count_one.
      destruct (string_dec n name) as [-> | Hd].
      * rewrite count_occ_cons_eq by reflexivity. lia.
      * rewrite count_occ_cons_neq; [lia |].
        intros Ht. apply token_inj in Ht. now elim Hd.
Qed.

Lemma lookups_length_step (st : Scan Emoji) (w : string) :
  (List.length (lookups (scan_word cfg st w)) <= S (List.length (lookups st)))%nat.
Proof.
  destruct (scan_word_cases st w)
    as [[_ ->] | [name [_ [_ [_ [[e [_ ->]] | [_ ->]]]]]]]; simpl;
    rewrite ?List.length_app; simpl; lia.
Qed.

Lemma lookups_length (ws : list string) :
  forall st : Scan Emoji,
    (List.length (lookups (fold_left (scan_word cfg) ws st))
     <= List.length (lookups st) + List.length ws)%nat.
Proof.
  induction ws as [|w ws IH]; intros st; simpl; [lia |].
  pose proof (IH (scan_word cfg st w)). pose proof (lookups_length_step st w). lia.
Qed.

(** X2.  How often [get_emoji] is called in one scan of a message: a name
    that resolves is looked up once if its word [:name:] is among the
    words of the message, however often it is there, and not at all
    otherwise; a name that does not resolve is looked up again at each
    occurrence of its word; and there is at most one lookup per word. *)
Theorem scan_lookup_counts (c name : string) :
  name <> "" ->
  (forall e, get_emoji cfg name = Some e ->
     (In (token name) (split c) ->
      count_occ string_dec (lookups (scan cfg c)) name = 1%nat)
     /\ (~ In (token name) (split c) ->
         count_occ string_dec (lookups (scan cfg c)) name = 0%nat))
  /\ (get_emoji cfg name = None ->
      count_occ string_dec (lookups (scan cfg c)) name
      = count_occ string_dec (split c) (token name))
  /\ (List.length (lookups (scan cfg c)) <= List.length (split c))%nat.
Proof.
  intros Hne. split; [|split].
  - intros e He.
    destruct (scan_inv_scan c) as [_ [Hnd [_ Hcnt]]].
    rewrite (Hcnt name e He). split; intros Hin.
    + apply (proj1 (NoDup_count_occ' string_dec _) Hnd).
      unfold scan. now apply (resolved_in_temp _ name e).
    + apply count_occ_not_In. intros Ht. unfold scan in Ht.
      apply temp_from_words in Ht. destruct Ht as [[] | Ht]. now apply Hin.
  - intros Hmiss. unfold scan.
    rewrite (miss_lookups name Hne Hmiss _ _ (scan_inv_start c)). reflexivity.
  - unfold scan. apply (lookups_length (split c) (scan_start c)).
Qed.

(** Once set, [emoji] stays set. *)
Lemma emoji_stays (ws : list string) :
  forall (st : Scan Emoji) e,
    emoji st = Some e ->
    exists e', emoji (fold_left (scan_word cfg) ws st) = Some e'.
Proof.
  induction ws as [|w ws IH]; intros st e He; simpl; [eauto |].
  destruct (scan_word_cases st w)
    as [[_ ->] | [name [_ [_ [_ [[e0 [_ ->]] | [_ ->]]]]]]];
    eapply IH; simpl; eauto.
Qed.

(** When [emoji] is set at the end, it was set before or a word
    resolved. *)
Lemma emoji_source (ws : list string) :
  forall (st : Scan Emoji) e,
    emoji (fold_left (scan_word cfg) ws st) = Some e ->
    (exists e', emoji st = Some e')
    \/ exists name e', name <> "" /\ In (token name) ws
                       /\ get_emoji cfg name = Some e'.
Proof.
  induction ws as [|w ws IH]; intros st e H; simpl in H; [left; eauto |].
  destruct (IH _ _ H) as [[e' He'] | [name [e' [Hne [Hin Hn]]]]].
  - destruct (scan_word_cases st w)
      as [[_ E] | [name [Hne [Hw [_ [[e0 [He0 E]] | [_ E]]]]]]];
      rewrite E in He'; simpl in He'.
    + left; eauto.
    + right. exists name, e0. subst w. simpl. auto.
    + left; eauto.
  - right. exists name, e'. simpl. auto.
Qed.

(** As long as [emoji] is not set, the text is untouched. *)
Lemma text_kept (ws : list string) :
  forall st : Scan Emoji,
    emoji (fold_left (scan_word cfg) ws st) = None ->
    text (fold_left (scan_word cfg) ws st) = text st.
Proof.
  induction ws as [|w ws IH]; intros st H; simpl in *; [reflexivity |].
  destruct (scan_word_cases st w)
    as [[_ E] | [name [Hne [Hw [_ [[e0 [He0 E]] | [_ E]]]]]]].
  - rewrite E in *. now apply IH.
  - exfalso. rewrite E in H.
    match type of H with
    | emoji (fold_left _ _ ?st') = None =>
        destruct (emoji_stays ws st' e0 eq_refl) as [e' He']
    end.
    rewrite H in He'. discriminate.
  - rewrite E in *. now rewrite (IH _ H).
Qed.

Lemma scan_emoji_source (c : string) (e : Emoji) :
  emoji (scan cfg c) = Some e ->
  exists name e', name <> "" /\ In (token name) (split c)
                  /\ get_emoji cfg name = Some e'.
Proof.
  intros He. unfold scan in He.
  destruct (emoji_source _ _ _ He) as [[e' He'] | H]; [discriminate He' | exact H].
Qed.

Lemma scan_text_kept (c : string) :
  emoji (scan cfg c) = None -> text (scan cfg c) = c.
Proof. intros H. unfold scan in *. now apply (text_kept _ (scan_start c)). Qed.

Lemma scan_emoji_set (c name : string) (e : Emoji) :
  name <> "" -> In (token name) (split c) -> get_emoji cfg name = Some e ->
  exists e', emoji (scan cfg c) = Some e'.
Proof.
  intros Hne Hin He.
  destruct (scan_inv_scan c) as [_ [_ [Hem _]]]. apply Hem.
  intros Hnil.
  pose proof (resolved_in_temp _ name e Hne He (scan_start c) Hin) as Ht.
  fold (scan cfg c) in Ht. rewrite Hnil in Ht. destruct Ht.
Qed.

(** X3.  The relay goes on after the scan exactly when a word of the
    message resolves: [emoji] is set at the end of the loop if and only
    if some word [:name:] of the message, with a name that is not empty,
    is known to [get_emoji].  Until then the text is the one that came. *)
Theorem scan_resolves_iff (c : string) :
  ((exists e, emoji (scan cfg c) = Some e)
   <-> exists name e, name <> "" /\ In (token name) (split c)
                      /\ get_emoji cfg name = Some e)
  /\ (emoji (scan cfg c) = None -> text (scan cfg c) = c).
Proof.
  split; [split|].
  - intros [e He]. now apply (scan_emoji_source c e).
  - intros [name [e [Hne [Hin He]]]]. now apply (scan_emoji_set c name e).
  - apply scan_text_kept.
Qed.

(** A lookup is for a word of the message. *)
Lemma lookups_from_words (ws : list string) :
  forall (st : Scan Emoji) name,
    In name (lookups (fold_left (scan_word cfg) ws st)) ->
    In name (lookups st) \/ (name <> "" /\ In (token name) ws).
Proof.
  induction ws as [|w ws IH]; intros st name Hin; simpl in *; [now left |].
  destruct (IH _ _ Hin) as [H | [Hne H]]; [|right; auto].
  destruct (scan_word_cases st w)
    as [[_ E] | [n [Hn [Hw [_ [[e [_ E]] | [_ E]]]]]]];
    rewrite E in H; simpl in H; auto;
    apply in_app_iff in H; destruct H as [H | [<- | []]]; auto;
    right; subst w; auto.
Qed.

Lemma token_looked_up (c name : string) :
  name <> "" -> In (token name) (split c) -> In name (lookups (scan cfg c)).
Proof.
  intros Hne Hin. apply (count_occ_In string_dec).
  destruct (get_emoji cfg name) as [e|] eqn:He.
  - destruct (scan_inv_scan c) as [_ [_ [_ Hcnt]]]. rewrite (Hcnt name e He).
    apply (count_occ_In string_dec). unfold scan.
    now apply (resolved_in_temp _ name e).
  - unfold scan. rewrite (miss_lookups name Hne He _ _ (scan_inv_start c)).
    apply (count_occ_In string_dec) in Hin. simpl. lia.
Qed.

(** C2.  The loop of [_animated_emojis] goes through the words of
    [message.content.split()], as the message came, in order, each from
    the state the words before it have left.  A word is looked up exactly
    when it is [:name:] with a name that is not empty and it is not yet
    in [temp]; [temp] holds the words before it that resolved.  On a hit
    every occurrence of the word in the text is replaced by [str(emoji)]
    and the word is added to [temp]; on a miss text, [temp] and [emoji]
    stay as they are; every other word leaves the loop state as it is;
    in each case the loop goes on with the next word.  Over the whole
    message, the names looked up are those of its words [:name:] with a
    name that is not empty; the word [::] is never looked up.  Replacing
    means [str.replace]: the leftmost occurrence of the word is replaced
    and the replacement goes on behind it, and a text without the word is
    left as it is. *)
Theorem scan_word_candidate_token (c : string) :
  scan cfg c = fold_left (scan_word cfg) (split c) (scan_start c)
  /\ (forall before word after,
        split c = (before ++ word :: after)%list ->
        let st := fold_left (scan_word cfg) before (scan_start c) in
        scan cfg c = fold_left (scan_word cfg) after (scan_word cfg st word)
        /\ (In word (temp st) <->
            In word before
            /\ exists name e, name <> "" /\ word = token name
                              /\ get_emoji cfg name = Some e))
  /\ (forall (st : Scan Emoji) word name,
        name <> "" -> word = token name -> ~ In word (temp st) ->
        match get_emoji cfg name with
        | Some e =>
            scan_word cfg st word =
              {| text := replace word (emoji_str cfg e) (text st);
                 temp := temp st ++ [word];
                 emoji := Some e;
                 lookups := lookups st ++ [name] |}
        | None =>
            scan_word cfg st word =
              {| text := text st; temp := temp st; emoji := emoji st;
                 lookups := lookups st ++ [name] |}
        end)
  /\ (forall (st : Scan Emoji) word,
        (~ exists name, name <> "" /\ word = token name) \/ In word (temp st) ->
        scan_word cfg st word = st)
  /\ (forall name,
        In name (lookups (scan cfg c))
        <-> name <> "" /\ In (token name) (split c))
  /\ (forall st : Scan Emoji, scan_word cfg st "::" = st)
  /\ (forall word new a b,
        contains word (a ++ drop_last word) = false ->
        replace word new (a ++ word ++ b) = a ++ new ++ replace word new b)
  /\ (forall word new s, contains word s = false -> replace word new s = s).
Proof.
  split; [reflexivity |].
  split; [|split; [|split; [|split; [|split; [|split]]]]].
  - intros before word after Hsplit st. split.
    + unfold scan. rewrite Hsplit, fold_left_app. reflexivity.
    + split.
      * intros Hin. split.
        -- apply temp_from_words in Hin. destruct Hin as [[] | Hin]. exact Hin.
        -- destruct (scan_inv_fold before _ (scan_inv_start c)) as [Htok _].
           destruct (Htok _ Hin) as [name [e [Hne [Hw He]]]]. eauto.
      * intros [Hin [name [e [Hne [-> He]]]]].
        now apply (resolved_in_temp _ name e).
  - intros st word name Hne -> Hnew.
    destruct (get_emoji cfg name) as [e|] eqn:He.
    + now apply scan_word_hit.
    + now apply scan_word_miss.
  - intros st word H. apply scan_word_skip.
    destruct (candidate word (temp st)) eqn:Hc; [|reflexivity].
    apply candidate_iff in Hc. destruct Hc as [Htok Hnew].
    destruct H as [H | H]; [now elim H | now elim Hnew].
  - intros name. split.
    + intros Hin. unfold scan in Hin. apply lookups_from_words in Hin.
      destruct Hin as [[] | H]. exact H.
    + intros [Hne Hin]. now apply token_looked_up.
  - reflexivity.
  - intros word new a b. apply replace_occurrence.
  - intros word new s. apply replace_absent.
Qed.

End ScanInvariants.

(* ===================================================================== *)
(** ** The relay seen from [on_message] *)
(* ===================================================================== *)

Module ColonFacts.
Import PyStr PyStrFacts.

Lemma count_char_nonneg (c : ascii) (s : string) : 0 <= count_char c s.
Proof.
  induction s as [|d s IH]; simpl; [lia |].
  destruct (Ascii.eqb c d); lia.
Qed.

Lemma count_char_append (c : ascii) (a b : string) :
  count_char c (a ++ b) = count_char c a + count_char c b.
Proof. induction a as [|d a IH]; simpl; [reflexivity | rewrite IH; lia]. Qed.

(** A word of [split()] has no more of a character than the string. *)
Lemma split_from_count (c : ascii) (s : string) :
  forall cur w, In w (split_from cur s) ->
                count_char c w <= count_char c cur + count_char c s.
Proof.
  induction s as [|d s IH]; intros cur w; simpl.
  - destruct (is_empty cur); simpl; [intros [] | intros [<- | []]; lia].
  - pose proof (count_char_nonneg c cur). pose proof (count_char_nonneg c s).
    destruct (isspace d).
    + destruct (is_empty cur).
      * intros Hin. apply IH in Hin. simpl in Hin. destruct (Ascii.eqb c d); lia.
      * intros [<- | Hin]; [destruct (Ascii.eqb c d); lia |].
        apply IH in Hin. simpl in Hin. destruct (Ascii.eqb c d); lia.
    + intros Hin. apply IH in Hin. unfold snoc in Hin.
      rewrite count_char_append in Hin. simpl in Hin.
      destruct (Ascii.eqb c d); lia.
Qed.

Lemma split_count (c : ascii) (s w : string) :
  In w (split s) -> count_char c w <= count_char c s.
Proof. intros H. apply (split_from_count c) in H. simpl in H. lia. Qed.

Lemma token_colons (name : string) : 2 <= count_char ":" (token name).
Proof.
  unfold token. rewrite !count_char_append.
  change (count_char ":" ":") with 1.
  pose proof (count_char_nonneg ":" name). lia.
Qed.

(** A message with a word [:name:] passes the test of line 242. *)
Lemma token_passes_gate (name s : string) :
  In (token name) (split s) -> (1 <? count_char ":" s) = true.
Proof.
  intros H. apply (split_count ":") in H. pose proof (token_colons name).
  apply Z.ltb_lt. lia.
Qed.

End ColonFacts.

Section RelayFromOnMessage.
Import PyStr.

Variable Emoji : Type.
Variable cfg : Config Emoji.

Lemma colon_gate_free (w : World) (s : State) (m : Message) :
  has_webhook_id m = false ->
  outside_maintenance s m = false ->
  run w (on_message cfg m) s = run w (_animated_emojis cfg m) s.
Proof.
  intros Hweb Hm. unfold run at 1. unfold on_message. cbn [run_from].
  rewrite Hm, Hweb.
  destruct (1 <? count_char ":" (content s)) eqn:Hc; [reflexivity |].
  rewrite (animated_emojis_idle Emoji cfg w s m); [reflexivity |].
  intros name _ Hin. apply ColonFacts.token_passes_gate in Hin. congruence.
Qed.

(** X4.  The test [message.content.count(":") > 1] of [on_message] only
    saves work: for a message without webhook id that the maintenance
    test lets through, [on_message] does exactly what [_animated_emojis]
    would do on that message, whatever its number of colons.  No message
    with a word to resolve is kept from the relay by the test. *)
Theorem colon_gate_is_shortcut (w : World) (s : State) (m : Message) :
  has_webhook_id m = false ->
  outside_maintenance s m = false ->
  run w (on_message cfg m) s = run w (_animated_emojis cfg m) s
  /\ (forall name, In (token name) (split (content s)) ->
                   1 < count_char ":" (content s))
  /\ (count_char ":" (content s) <= 1 ->
      run w (_animated_emojis cfg m) s
      = {| outcome := Ok tt; final := s; trace := [] |}).
Proof.
  intros Hweb Hm. split; [now apply colon_gate_free |]. split.
  - intros name Hin. apply Z.ltb_lt. now apply (ColonFacts.token_passes_gate name).
  - intros Hc. apply animated_emojis_idle.
    intros name _ Hin. apply ColonFacts.token_passes_gate in Hin.
    apply Z.ltb_lt in Hin. lia.
Qed.

(** X5.  The relay when everything succeeds.  For a message without
    webhook id that the maintenance test lets through and that has a word
    [:name:] known to [get_emoji]: once the webhook is there, [on_message]
    sends the rewritten text through it under the display name and the
    avatar of the author, then deletes the message that came, and returns;
    the content of the message is the rewritten text, and these two calls
    are the last ones, in this order. *)
Theorem relay_success (w : World) (s : State) (m : Message)
    (name : string) (e : Emoji) (wh : Webhook) :
  has_webhook_id m = false ->
  outside_maintenance s m = false ->
  name <> "" ->
  In (token name) (split (content s)) ->
  get_emoji cfg name = Some e ->
  let rewritten := text (scan cfg (content s)) in
  let s' := set_content rewritten s in
  let proxy := run w (get_or_create_webhook cfg m) s' in
  let send := WebhookSend wh rewritten (display_name (message_author m))
                (display_avatar (message_author m)) in
  outcome proxy = Ok wh ->
  w send = Ok tt ->
  w (MessageDelete (message_id m)) = Ok tt ->
  run w (on_message cfg m) s =
    {| outcome := Ok tt;
       final := s';
       trace := (trace proxy ++ [(s', send); (s', MessageDelete (message_id m))])%list |}.
Proof.
  intros Hweb Hm Hne Hin He rewritten s' proxy send Hproxy Hsend Hdel.
  unfold run at 1. unfold on_message. cbn [run_from].
  rewrite Hm, Hweb, (ColonFacts.token_passes_gate name _ Hin).
  fold (run w (_animated_emojis cfg m) s).
  destruct (scan_emoji_set Emoji cfg (content s) name e Hne Hin He) as [e' He'].
  rewrite (animated_emojis_run Emoji cfg w s m e' He').
  cbv zeta. fold rewritten. fold s'. fold proxy. rewrite Hproxy.
  fold send. rewrite Hsend, Hdel. reflexivity.
Qed.

End RelayFromOnMessage.

(* ===================================================================== *)
(** ** Edges of the handlers *)
(* ===================================================================== *)

Section HandlerEdges.

Variable Emoji : Type.
Variable cfg : Config Emoji.

(** [_animated_emojis] always leaves the scanned text as the content,
    and nothing else changed. *)
Lemma animated_emojis_final (w : World) (s : State) (m : Message) :
  final (run w (_animated_emojis cfg m) s)
  = set_content (text (scan cfg (content s))) s.
Proof.
  destruct (emoji (scan cfg (content s))) as [e|] eqn:He.
  - rewrite (animated_emojis_run Emoji cfg w s m e He). cbv zeta.
    destruct (outcome (run w (get_or_create_webhook cfg m) _)) as [wh|x];
      [|reflexivity].
    destruct (w (WebhookSend wh _ _ _)); reflexivity.
  - unfold run, _animated_emojis. simpl. rewrite He. reflexivity.
Qed.

(** X6.  [on_bump_done] looks for the terminal channel, the bumper role
    and the [reminder] emoji only after the sleep.  When one of them is
    missing, the timer still sleeps for the whole delay with [running]
    set, resets [running], and then raises [AttributeError]: the sleep is
    its only call and no reminder is sent. *)
Theorem on_bump_done_missing_config (w : World) (s : State) (delay : Z) :
  get_channel cfg (TERMINAL_CHANNEL_ID cfg) = None
  \/ get_emoji cfg "reminder" = None
  \/ (exists channel, get_channel cfg (TERMINAL_CHANNEL_ID cfg) = Some channel
                      /\ get_role cfg channel (BUMPER_ROLE_ID cfg) = None) ->
  run w (on_bump_done cfg delay) s =
    {| outcome := Err AttributeError;
       final := set_running false s;
       trace := [(set_running true s, Sleep delay)] |}.
Proof.
  intros H. rewrite on_bump_done_run, send_reminder_run.
  destruct H as [-> | [H | [channel [-> H]]]]; [reflexivity | |].
  - rewrite H. destruct (get_channel cfg (TERMINAL_CHANNEL_ID cfg)); reflexivity.
  - rewrite H. destruct (get_emoji cfg "reminder"); reflexivity.
Qed.

(** X7.  Maintenance mode from startup on.  In maintenance mode
    [on_ready] does not read the clock and dispatches nothing, so no
    reminder timer is armed however old the last bump is; its one call
    sets the presence.  It leaves as
    maintenance channel what [get_channel] gives for the configured id,
    and from then on [on_message] does nothing at all for a message in
    another channel; when the channel is not found, it does nothing for
    any message. *)
Theorem maintenance_startup (w : World) (s : State) :
  MAINTENANCE_MODE s = true ->
  let r := run w (on_ready cfg) s in
  calls r = [ChangePresence (Some "do_not_disturb") "| Under Maintenance"]
  /\ outcome r = w (ChangePresence (Some "do_not_disturb") "| Under Maintenance")
  /\ MAINTENANCE_MODE (final r) = true
  /\ MAINTENANCE_CHANNEL (final r) = get_channel cfg (MAINTENANCE_CHANNEL_ID cfg)
  /\ (forall w' m c,
        match get_channel cfg (MAINTENANCE_CHANNEL_ID cfg) with
        | Some channel => channel_id (message_channel m) <> channel_id channel
        | None => True
        end ->
        run w' (on_message cfg m) (set_content c (final r))
        = {| outcome := Ok tt; final := set_content c (final r); trace := [] |}).
Proof.
  intros Hm r.
  assert (Hr : r = {| outcome := w (ChangePresence (Some "do_not_disturb")
                                      "| Under Maintenance");
                      final := set_maintenance_channel
                                 (get_channel cfg (MAINTENANCE_CHANNEL_ID cfg))
                                 (new_bump_timer s);
                      trace := [(set_maintenance_channel
                                   (get_channel cfg (MAINTENANCE_CHANNEL_ID cfg))
                                   (new_bump_timer s),
                                 ChangePresence (Some "do_not_disturb")
                                   "| Under Maintenance")] |}).
  { unfold r, run, on_ready. simpl. rewrite Hm. simpl.
    destruct (w (ChangePresence _ _)); reflexivity. }
  rewrite Hr. unfold calls. simpl. repeat split; auto.
  intros w' m c Hch. unfold run, on_message. simpl.
  unfold outside_maintenance. simpl. rewrite Hm. simpl.
  destruct (get_channel cfg (MAINTENANCE_CHANNEL_ID cfg)) as [channel|];
    [|reflexivity].
  unfold channel_eqb. apply Z.eqb_neq in Hch. rewrite Hch. reflexivity.
Qed.

(** X8.  What [on_message] can change.  It never changes the
    maintenance settings.  It changes the stored bump time only for a
    webhook message of Disboard whose first embed says [Bump done].  It
    changes the content of a message only for a message without webhook
    id in which a word [:name:] resolves.  In both cases the maintenance
    test has let the message through. *)
Theorem on_message_frame (w : World) (s : State) (m : Message) :
  let r := run w (on_message cfg m) s in
  MAINTENANCE_MODE (final r) = MAINTENANCE_MODE s
  /\ MAINTENANCE_CHANNEL (final r) = MAINTENANCE_CHANNEL s
  /\ (bump_time (final r) <> bump_time s ->
      outside_maintenance s m = false
      /\ has_webhook_id m = true
      /\ user_id (message_author m) = DISBOARD_ID cfg
      /\ (exists e rest d, message_embeds m = e :: rest
                           /\ embed_description e = Some d
                           /\ PyStr.contains "Bump done" d = true))
  /\ (content (final r) <> content s ->
      outside_maintenance s m = false
      /\ has_webhook_id m = false
      /\ exists name e, name <> "" /\ In (token name) (PyStr.split (content s))
                        /\ get_emoji cfg name = Some e).
Proof.
  intros r.
  destruct (outside_maintenance s m) eqn:Hm.
  { assert (Hr : r = {| outcome := Ok tt; final := s; trace := [] |}).
    { unfold r, run, on_message. simpl. now rewrite Hm. }
    rewrite Hr. simpl. repeat split; auto; congruence. }
  destruct (has_webhook_id m) eqn:Hweb.
  - assert (Hr : final r = s
                 \/ (user_id (message_author m) = DISBOARD_ID cfg
                     /\ (exists e rest d, message_embeds m = e :: rest
                                          /\ embed_description e = Some d
                                          /\ PyStr.contains "Bump done" d = true)
                     /\ final r = update_bump_time (w Now) s)).
    { unfold r, run, on_message, bump_confirmation. simpl. rewrite Hm, Hweb.
      destruct (user_id (message_author m) =? DISBOARD_ID cfg) eqn:Ha;
        [|now left].
      apply Z.eqb_eq in Ha.
      destruct (message_embeds m) as [|e rest]; [now left |].
      destruct (embed_description e) as [d|] eqn:Hd; [|now left].
      destruct (PyStr.contains "Bump done" d) eqn:Hb; [|now left].
      right. split; [exact Ha |]. split; [|reflexivity].
      exists e, rest, d. auto. }
    destruct Hr as [-> | [Ha [Hex ->]]]; simpl.
    + repeat split; auto; congruence.
    + repeat split; auto; congruence.
  - assert (Hr : final r = set_content (text (scan cfg (content s))) s).
    { unfold r. rewrite (colon_gate_free Emoji cfg w s m Hweb Hm).
      apply animated_emojis_final. }
    rewrite Hr. simpl. split; [reflexivity |]. split; [reflexivity |].
    split; [congruence |].
    intros Hc. split; [reflexivity |]. split; [reflexivity |].
    destruct (emoji (scan cfg (content s))) as [e|] eqn:He.
    + now apply (scan_emoji_source Emoji cfg (content s) e).
    + elim Hc. now apply scan_text_kept.
Qed.

(** X9.  A webhook message of Disboard that is no confirmation.  Only
    the description of the first embed is looked at.  Without any embed
    [on_message] raises [IndexError]; with a first embed that has no
    description it raises [TypeError]; with a description that does not
    contain [Bump done] it returns.  In the three cases it makes no call
    and changes nothing: the stored bump time stays and no timer is
    armed. *)
Theorem disboard_message_without_confirmation (w : World) (s : State) (m : Message) :
  outside_maintenance s m = false ->
  has_webhook_id m = true ->
  user_id (message_author m) = DISBOARD_ID cfg ->
  (message_embeds m = [] ->
   run w (on_message cfg m) s
   = {| outcome := Err IndexError; final := s; trace := [] |})
  /\ (forall e rest, message_embeds m = e :: rest -> embed_description e = None ->
      run w (on_message cfg m) s
      = {| outcome := Err TypeError; final := s; trace := [] |})
  /\ (forall e rest d, message_embeds m = e :: rest ->
      embed_description e = Some d -> PyStr.contains "Bump done" d = false ->
      run w (on_message cfg m) s
      = {| outcome := Ok tt; final := s; trace := [] |}).
Proof.
  intros Hm Hweb Ha.
  repeat split; intros; unfold run, on_message, bump_confirmation; simpl;
    rewrite Hm, Hweb, Ha, Z.eqb_refl.
  - now rewrite H.
  - now rewrite H, H0.
  - now rewrite H, H0, H1.
Qed.

(** X12.  How obtaining the webhook can fail.  When the listing fails,
    nothing else is tried.  When no webhook of the channel belongs to the
    bot and the avatar of the author cannot be read, no webhook is
    created.  When the creation fails, its exception is the result.  Each
    time the exception of the failed call is raised as it is, and the
    state is left alone. *)
Theorem get_or_create_webhook_failures (w : World) (s : State) (m : Message) :
  let listing := ChannelWebhooks (message_channel m) in
  let reading := AvatarRead (display_avatar (message_author m)) in
  (forall x, w listing = Err x ->
     run w (get_or_create_webhook cfg m) s
     = {| outcome := Err x; final := s; trace := [(s, listing)] |})
  /\ (forall ws x,
        w listing = Ok ws ->
        (forall wh, In wh ws -> webhook_user wh <> self_user_id cfg) ->
        w reading = Err x ->
        run w (get_or_create_webhook cfg m) s
        = {| outcome := Err x; final := s;
             trace := [(s, listing); (s, reading)] |})
  /\ (forall ws avatar x,
        w listing = Ok ws ->
        (forall wh, In wh ws -> webhook_user wh <> self_user_id cfg) ->
        w reading = Ok avatar ->
        w (CreateWebhook (message_channel m) "iCODE-BOT" avatar
             "Animated Emoji Usage") = Err x ->
        run w (get_or_create_webhook cfg m) s
        = {| outcome := Err x; final := s;
             trace := [(s, listing); (s, reading);
                       (s, CreateWebhook (message_channel m) "iCODE-BOT" avatar
                             "Animated Emoji Usage")] |}).
Proof.
  cbv zeta. split; [|split].
  - intros x Hl. unfold run, get_or_create_webhook. simpl. now rewrite Hl.
  - intros ws x Hl Hnone Hr.
    apply (proj2 (own_webhook_none Emoji cfg ws)) in Hnone.
    unfold run, get_or_create_webhook. simpl.
    rewrite Hl. simpl. rewrite Hnone. simpl. now rewrite Hr.
  - intros ws avatar x Hl Hnone Hr Hc.
    apply (proj2 (own_webhook_none Emoji cfg ws)) in Hnone.
    rewrite (get_or_create_new Emoji cfg w s m ws avatar Hl Hnone Hr).
    now rewrite Hc.
Qed.

End HandlerEdges.

(* ===================================================================== *)
(** ** The help menu *)
(* ===================================================================== *)

Module WordFacts.
Import PyStr PyStrFacts.

Lemma no_space_append (a b : string) :
  no_space (a ++ b) = no_space a && no_space b.
Proof.
  induction a as [|c a IH]; simpl; [reflexivity |].
  rewrite IH. now rewrite andb_assoc.
Qed.

(** [split()] reads a word without white space in one go. *)
Lemma split_from_word (w : string) :
  no_space w = true ->
  forall cur rest, split_from cur (w ++ rest) = split_from (cur ++ w) rest.
Proof.
  induction w as [|c w IH]; intros Hw cur rest; simpl.
  - now rewrite append_nil_r.
  - simpl in Hw. apply andb_true_iff in Hw. destruct Hw as [Hc Hw].
    apply negb_true_iff in Hc. rewrite Hc. rewrite (IH Hw).
    unfold snoc. now rewrite append_assoc.
Qed.

Lemma split_from_space (cur rest : string) :
  cur <> "" -> split_from cur (String " " rest) = cur :: split_from "" rest.
Proof. intros H. destruct cur; [now elim H | reflexivity]. Qed.

(** Words without white space joined by single spaces are split into
    the same words. *)
Lemma split_concat (ws : list string) :
  Forall (fun w => w <> "" /\ no_space w = true) ws ->
  split (String.concat " " ws) = ws.
Proof.
  unfold split. induction ws as [|w ws IH]; intros H; [reflexivity |].
  inversion H as [|? ? [Hne Hw] Hrest]; subst.
  destruct ws as [|w' ws].
  - simpl String.concat. rewrite <- (append_nil_r w) at 1.
    rewrite (split_from_word w Hw). simpl.
    destruct w; [now elim Hne | reflexivity].
  - specialize (IH Hrest).
    change (String.concat " " (w :: w' :: ws))
      with (w ++ String " " (String.concat " " (w' :: ws))).
    set (tail := String.concat " " (w' :: ws)) in *.
    rewrite (split_from_word w Hw).
    change ("" ++ w) with w.
    rewrite (split_from_space w tail Hne). now rewrite IH.
Qed.

Lemma snoc_inj (a b : string) (c : ascii) : snoc a c = snoc b c -> a = b.
Proof.
  intros H. rewrite <- (drop_last_snoc a c), H. apply drop_last_snoc.
Qed.

End WordFacts.

Section HelpMenu.
Import Usage.

Lemma render_option_inj (o1 o2 : CommandOption) :
  render_option o1 = render_option o2 -> o1 = o2.
Proof.
  destruct o1 as [n1 [|]], o2 as [n2 [|]]; unfold render_option; simpl;
    intros H; try discriminate; injection H as H;
    apply (WordFacts.snoc_inj n1 n2) in H; now subst.
Qed.

Lemma render_option_word (o : CommandOption) :
  no_space (option_name o) = true ->
  render_option o <> "" /\ no_space (render_option o) = true.
Proof.
  intros H. unfold render_option.
  destruct (option_required o); (split; [discriminate |]);
    simpl; rewrite WordFacts.no_space_append, H; reflexivity.
Qed.

Lemma rendered_words (os : list CommandOption) :
  Forall (fun o => no_space (option_name o) = true) os ->
  Forall (fun w => w <> "" /\ no_space w = true) (map render_option os).
Proof.
  induction 1 as [|o os Ho _ IH]; simpl; constructor;
    [now apply render_option_word | exact IH].
Qed.

Lemma map_render_inj (os1 os2 : list CommandOption) :
  map render_option os1 = map render_option os2 -> os1 = os2.
Proof.
  revert os2. induction os1 as [|o os1 IH]; intros [|o' os2] H;
    try discriminate; [reflexivity |].
  simpl in H. injection H as Ho Hos.
  apply render_option_inj in Ho. apply IH in Hos. now subst.
Qed.

(** X10.  The usage string of a command, for option names without white
    space: its words are the options in their order, a required one as
    [<name>] and an optional one as [[name]]; so the string says which
    options there are and which are required, and two commands with the
    same usage string have the same options. *)
Theorem usage_string_words (cmd : Command) :
  Forall (fun o => no_space (option_name o) = true) (command_options cmd) ->
  PyStr.split (options_string cmd) = map render_option (command_options cmd)
  /\ (forall cmd',
        Forall (fun o => no_space (option_name o) = true) (command_options cmd') ->
        options_string cmd = options_string cmd' ->
        command_options cmd = command_options cmd').
Proof.
  intros H.
  assert (Hsplit : forall c,
            Forall (fun o => no_space (option_name o) = true) (command_options c) ->
            PyStr.split (options_string c) = map render_option (command_options c)).
  { intros c Hc. unfold options_string.
    apply WordFacts.split_concat. now apply rendered_words. }
  split; [now apply Hsplit |].
  intros cmd' H' E. apply map_render_inj.
  rewrite <- (Hsplit cmd H), <- (Hsplit cmd' H'). now rewrite E.
Qed.

Variable Emoji : Type.
Variable cfg : Config Emoji.
Variable get_cog : string -> option Cog.
Variable bot_avatar : string.
Variable author : User.
Variable author_color : Z.

(** The loop over the commands: it ends well exactly on slash commands
    only, with one field each, in order; otherwise the first command
    without [options] raises [AttributeError]. *)
Lemma add_fields_ok (emoji : string) (cmds : list CogCommand) :
  forall acc fs,
    add_fields emoji cmds acc = Ok fs <->
    exists cs, cmds = map WithOptions cs
               /\ fs = (acc ++ map (command_field emoji) cs)%list.
Proof.
  induction cmds as [|[cmd|] cmds IH]; intros acc fs; simpl.
  - split.
    + intros [= <-]. exists []. simpl. now rewrite app_nil_r.
    + intros [[|c cs] [Hc ->]]; [simpl; now rewrite app_nil_r | discriminate].
  - rewrite IH. split.
    + intros [cs [-> ->]]. exists (cmd :: cs). simpl.
      now rewrite <- app_assoc.
    + intros [[|c cs] [Hc ->]]; [discriminate |].
      injection Hc as <- ->. exists cs. simpl. now rewrite <- app_assoc.
  - split; [discriminate |].
    intros [[|c cs] [Hc _]]; discriminate.
Qed.

Lemma add_fields_err (emoji : string) (cmds : list CogCommand) :
  forall acc x,
    add_fields emoji cmds acc = Err x <->
    x = AttributeError /\ In WithoutOptions cmds.
Proof.
  induction cmds as [|[cmd|] cmds IH]; intros acc x; simpl.
  - split; [discriminate | intros [_ []]].
  - rewrite IH. split; intros [-> H]; split; auto.
    destruct H as [H | H]; [discriminate | exact H].
  - split; [intros [= <-]; auto | intros [-> _]; reflexivity].
Qed.

(** X11.  [select_callback] has an embed to show exactly when a value is
    selected, a group of that name is loaded, the [reply] emoji is known
    and every command of the group has [options]; the embed then has the
    description of the group and one field per command, in order.
    Without a selected value it raises [IndexError].  It raises
    [AttributeError] exactly when a value is selected and the group is
    not loaded, or the [reply] emoji is missing (even for a group without
    commands), or a command of the group has no [options].  It raises
    nothing else, and only the first selected value counts. *)
Theorem select_callback_embed_spec (values : list string) :
  let result := select_callback_embed cfg get_cog bot_avatar author author_color values in
  (forall embed,
     result = Ok embed <->
     exists value rest cog emoji cmds,
       values = value :: rest /\ get_cog value = Some cog
       /\ get_emoji cfg "reply" = Some emoji
       /\ cog_commands cog = map WithOptions cmds
       /\ embed = {| help_description := cog_description cog;
                     help_color := author_color;
                     author_name := "iCODE Usage Help";
                     author_icon := bot_avatar;
                     footer_text := "<Required> - [Optional]";
                     footer_icon := display_avatar author;
                     thumbnail := bot_avatar;
                     fields := map (command_field (emoji_str cfg emoji)) cmds |})
  /\ (result = Err IndexError <-> values = [])
  /\ (result = Err AttributeError <->
      exists value rest,
        values = value :: rest
        /\ (get_cog value = None
            \/ exists cog, get_cog value = Some cog
                 /\ (get_emoji cfg "reply" = None
                     \/ In WithoutOptions (cog_commands cog))))
  /\ (forall x, result = Err x -> x = IndexError \/ x = AttributeError).
Proof.
  cbv zeta. unfold select_callback_embed.
  destruct values as [|value rest].
  { split; [|split; [|split]].
    - intros embed. split; [discriminate |].
      intros [v [r [c [e [cs [H _]]]]]]. discriminate.
    - tauto.
    - split; [discriminate | intros [v [r [H _]]]; discriminate].
    - intros x [= <-]. now left. }
  destruct (get_cog value) as [cog|] eqn:Hc.
  2:{ split; [|split; [|split]].
      - intros embed. split; [discriminate |].
        intros [v [r [c [e [cs [[= <- <-] [H _]]]]]]]. congruence.
      - split; discriminate.
      - split; [intros _ | reflexivity]. exists value, rest. auto.
      - intros x [= <-]. now right. }
  destruct (get_emoji cfg "reply") as [emoji|] eqn:He.
  2:{ split; [|split; [|split]].
      - intros embed. split; [discriminate |].
        intros [v [r [c [e [cs [[= <- <-] [_ [H _]]]]]]]]. congruence.
      - split; discriminate.
      - split; [intros _ | reflexivity]. exists value, rest.
        split; [reflexivity |]. right. exists cog. auto.
      - intros x [= <-]. now right. }
  destruct (add_fields (emoji_str cfg emoji) (cog_commands cog) []) as [fs|x] eqn:Hf.
  - apply add_fields_ok in Hf. destruct Hf as [cs [Hcs ->]]. simpl app.
    split; [|split; [|split]].
    + intros embed. split.
      * intros [= <-]. exists value, rest, cog, emoji, cs. auto.
      * intros [v [r [c [e [cs' [[= <- <-] [Hc' [He' [Hcs' ->]]]]]]]]].
        assert (c = cog) as -> by congruence.
        assert (e = emoji) as -> by congruence.
        rewrite Hcs in Hcs'.
        assert (cs = cs') as <-; [|reflexivity].
        clear -Hcs'. revert cs' Hcs'.
        induction cs as [|a cs IH]; intros [|b cs'] H; try discriminate;
          [reflexivity |].
        simpl in H. injection H as -> H. f_equal. now apply IH.
    + split; discriminate.
    + split; [discriminate |].
      intros [v [r [[= <- <-] [H | [c [Hc' [H | H]]]]]]]; try congruence.
      assert (c = cog) as -> by congruence. rewrite Hcs in H.
      apply in_map_iff in H. destruct H as [? [? _]]. discriminate.
    + discriminate.
  - apply add_fields_err in Hf. destruct Hf as [-> Hin].
    split; [|split; [|split]].
    + intros embed. split; [discriminate |].
      intros [v [r [c [e [cs [[= <- <-] [Hc' [_ [Hcs _]]]]]]]]].
      assert (c = cog) as -> by congruence. rewrite Hcs in Hin.
      apply in_map_iff in Hin. destruct Hin as [? [? _]]. discriminate.
    + split; discriminate.
    + split; [intros _ | reflexivity]. exists value, rest.
      split; [reflexivity |]. right. exists cog. auto.
    + intros x [= <-]. now right.
Qed.

End HelpMenu.

(* ===================================================================== *)
(** ** These theorems on the small servers *)
(* ===================================================================== *)

Lemma scan_word_candidate_token_witness :
  scan Demo.cfg "hi :smile: :nope: :: :smile:"
  = {| text := "hi <a:smile:7> :nope: :: <a:smile:7>"; temp := [":smile:"];
       emoji := Some "<a:smile:7>"; lookups := ["smile"; "nope"] |}
  /\ (PyStr.split "hi :smile: :nope: :: :smile:"
      = (["hi"; ":smile:"; ":nope:"; "::"] ++ ":smile:" :: [])%list
      /\ In ":smile:"
           (temp (fold_left (scan_word Demo.cfg) ["hi"; ":smile:"; ":nope:"; "::"]
                    (scan_start "hi :smile: :nope: :: :smile:"))))
  /\ scan_word Demo.cfg (scan_start "hi :smile:") ":smile:"
     = {| text := "hi <a:smile:7>"; temp := [":smile:"];
          emoji := Some "<a:smile:7>"; lookups := ["smile"] |}
  /\ scan_word Demo.cfg (scan_start "hi :nope:") ":nope:"
     = {| text := "hi :nope:"; temp := []; emoji := None; lookups := ["nope"] |}
  /\ scan_word Demo.cfg (scan_start "hi :smile:") "hi" = scan_start "hi :smile:"
  /\ In "nope" (lookups (scan Demo.cfg "hi :smile: :nope: :: :smile:"))
  /\ PyStr.replace ":smile:" "<a:smile:7>" ("hi " ++ ":smile:" ++ " you")
     = "hi " ++ "<a:smile:7>" ++ " you".
Proof.
  destruct (scan_word_candidate_token string Demo.cfg "hi :smile: :nope: :: :smile:")
    as [Hscan [Hword [Hcand [Hskip [Hlook [_ [Hocc Habs]]]]]]].
  split; [rewrite Hscan; reflexivity |].
  split.
  { split; [reflexivity |].
    destruct (Hword ["hi"; ":smile:"; ":nope:"; "::"] ":smile:" [] eq_refl)
      as [_ Htemp].
    apply Htemp. split; [simpl; tauto |].
    exists "smile", "<a:smile:7>". split; [discriminate |]. split; reflexivity. }
  split.
  { apply (Hcand (scan_start "hi :smile:") ":smile:" "smile");
      simpl; (discriminate || reflexivity || tauto). }
  split.
  { apply (Hcand (scan_start "hi :nope:") ":nope:" "nope");
      simpl; (discriminate || reflexivity || tauto). }
  split.
  { apply Hskip. left. intros [name [_ E]]. discriminate E. }
  split.
  { apply Hlook. split; [discriminate | simpl; tauto]. }
  rewrite <- (Habs ":smile:" "<a:smile:7>" " you" eq_refl) at 2.
  apply (Hocc ":smile:" "<a:smile:7>" "hi " " you"). reflexivity.
Defined.

Lemma scan_lookup_counts_witness :
  count_occ string_dec
    (lookups (scan Demo.cfg ":nope: :smile: :nope: :smile:")) "smile" = 1%nat
  /\ count_occ string_dec
       (lookups (scan Demo.cfg ":nope: :smile: :nope: :smile:")) "nope" = 2%nat
  /\ count_occ string_dec
       (lookups (scan Demo.cfg ":nope: :smile: :nope: :smile:")) "reminder" = 0%nat.
Proof.
  assert (Hs : "smile" <> "") by discriminate.
  assert (Hn : "nope" <> "") by discriminate.
  assert (Hr : "reminder" <> "") by discriminate.
  destruct (scan_lookup_counts string Demo.cfg
              ":nope: :smile: :nope: :smile:" "smile" Hs) as [H1 _].
  destruct (scan_lookup_counts string Demo.cfg
              ":nope: :smile: :nope: :smile:" "nope" Hn) as [_ [H2 _]].
  destruct (scan_lookup_counts string Demo.cfg
              ":nope: :smile: :nope: :smile:" "reminder" Hr) as [H3 _].
  split; [|split].
  - apply (proj1 (H1 _ eq_refl)). simpl. tauto.
  - rewrite (H2 eq_refl). reflexivity.
  - apply (proj2 (H3 _ eq_refl)). simpl.
    intros [H | [H | [H | [H | []]]]]; discriminate H.
Defined.

Lemma scan_resolves_iff_witness :
  (exists e, emoji (scan Demo.cfg "hi :smile:") = Some e)
  /\ (emoji (scan Demo.cfg "hi :nope:") = None
      /\ text (scan Demo.cfg "hi :nope:") = "hi :nope:").
Proof.
  destruct (scan_resolves_iff string Demo.cfg "hi :smile:") as [[_ H1] _].
  destruct (scan_resolves_iff string Demo.cfg "hi :nope:") as [_ H2].
  split.
  - apply H1. exists "smile", "<a:smile:7>".
    split; [discriminate |]. split; [simpl; tauto | reflexivity].
  - split; [reflexivity | apply H2; reflexivity].
Defined.

Lemma colon_gate_is_shortcut_witness :
  has_webhook_id Demo.from_alice = false
  /\ outside_maintenance (Demo.state "see :smile") Demo.from_alice = false
  /\ run Demo.calm (on_message Demo.cfg Demo.from_alice) (Demo.state "see :smile")
     = run Demo.calm (_animated_emojis Demo.cfg Demo.from_alice)
         (Demo.state "see :smile")
  /\ run Demo.calm (_animated_emojis Demo.cfg Demo.from_alice)
       (Demo.state "see :smile")
     = {| outcome := Ok tt; final := Demo.state "see :smile"; trace := [] |}.
Proof.
  destruct (colon_gate_is_shortcut string Demo.cfg Demo.calm
              (Demo.state "see :smile") Demo.from_alice eq_refl eq_refl)
    as [H1 [_ H2]].
  split; [reflexivity |]. split; [reflexivity |]. split; [exact H1 |].
  apply H2. discriminate.
Defined.

Lemma relay_success_witness :
  In (token "smile") (PyStr.split (content (Demo.state "hi :smile: !")))
  /\ run Demo.calm (on_message Demo.cfg Demo.from_alice) (Demo.state "hi :smile: !")
     = {| outcome := Ok tt;
          final := Demo.state "hi <a:smile:7> !";
          trace :=
            [ (Demo.state "hi <a:smile:7> !", ChannelWebhooks Demo.lobby);
              (Demo.state "hi <a:smile:7> !",
               WebhookSend Demo.own "hi <a:smile:7> !" "alice" "alice.png");
              (Demo.state "hi <a:smile:7> !", MessageDelete 100) ] |}.
Proof.
  assert (Hin : In (token "smile")
                  (PyStr.split (content (Demo.state "hi :smile: !")))).
  { simpl. tauto. }
  assert (Hne : "smile" <> "") by discriminate.
  split; [exact Hin |].
  exact (relay_success string Demo.cfg Demo.calm (Demo.state "hi :smile: !")
           Demo.from_alice "smile" "<a:smile:7>" Demo.own
           eq_refl eq_refl Hne Hin eq_refl eq_refl eq_refl eq_refl).
Defined.

Lemma on_bump_done_missing_config_witness :
  get_channel DemoEdges.cfg (TERMINAL_CHANNEL_ID DemoEdges.cfg) = None
  /\ run Demo.calm (on_bump_done DemoEdges.cfg 7200) (Demo.state "")
     = {| outcome := Err AttributeError;
          final := Demo.state "";
          trace := [(set_running true (Demo.state ""), Sleep 7200)] |}.
Proof.
  split; [reflexivity |].
  exact (on_bump_done_missing_config string DemoEdges.cfg Demo.calm
           (Demo.state "") 7200 (or_introl eq_refl)).
Defined.

Lemma maintenance_startup_witness :
  MAINTENANCE_MODE (Demo.maintenance "") = true
  /\ calls (run Demo.calm (on_ready DemoEdges.cfg) (Demo.maintenance ""))
     = [ChangePresence (Some "do_not_disturb") "| Under Maintenance"]
  /\ run Demo.calm (on_message DemoEdges.cfg Demo.bump_done)
       (set_content ""
          (final (run Demo.calm (on_ready DemoEdges.cfg) (Demo.maintenance ""))))
     = {| outcome := Ok tt;
          final := set_content ""
                     (final (run Demo.calm (on_ready DemoEdges.cfg)
                               (Demo.maintenance "")));
          trace := [] |}
  /\ run Demo.calm (on_message Demo.cfg Demo.from_alice)
       (set_content "hi :smile:"
          (final (run Demo.calm (on_ready Demo.cfg) (Demo.maintenance ""))))
     = {| outcome := Ok tt;
          final := set_content "hi :smile:"
                     (final (run Demo.calm (on_ready Demo.cfg)
                               (Demo.maintenance "")));
          trace := [] |}.
Proof.
  destruct (maintenance_startup string DemoEdges.cfg Demo.calm
              (Demo.maintenance "") eq_refl) as [Hc [_ [_ [_ H1]]]].
  destruct (maintenance_startup string Demo.cfg Demo.calm
              (Demo.maintenance "") eq_refl) as [_ [_ [_ [_ H2]]]].
  split; [reflexivity |]. split; [exact Hc |]. split.
  - apply (H1 Demo.calm Demo.bump_done ""). simpl. discriminate.
  - apply (H2 Demo.calm Demo.from_alice "hi :smile:"). exact I.
Defined.

Lemma on_message_frame_witness :
  (bump_time (final (run Demo.calm (on_message Demo.cfg Demo.bump_done)
                       (Demo.state ""))) <> bump_time (Demo.state "")
   /\ user_id (message_author Demo.bump_done) = DISBOARD_ID Demo.cfg)
  /\ (content (final (run Demo.calm (on_message Demo.cfg Demo.from_alice)
                        (Demo.state "hi :smile:"))) <> content (Demo.state "hi :smile:")
      /\ exists name e, name <> ""
           /\ In (token name) (PyStr.split (content (Demo.state "hi :smile:")))
           /\ get_emoji Demo.cfg name = Some e).
Proof.
  destruct (on_message_frame string Demo.cfg Demo.calm (Demo.state "")
              Demo.bump_done) as [_ [_ [H1 _]]].
  destruct (on_message_frame string Demo.cfg Demo.calm (Demo.state "hi :smile:")
              Demo.from_alice) as [_ [_ [_ H2]]].
  assert (N1 : bump_time (final (run Demo.calm (on_message Demo.cfg Demo.bump_done)
                 (Demo.state ""))) <> bump_time (Demo.state "")) by discriminate.
  assert (N2 : content (final (run Demo.calm (on_message Demo.cfg Demo.from_alice)
                 (Demo.state "hi :smile:"))) <> content (Demo.state "hi :smile:"))
    by discriminate.
  split; split; [exact N1 | | exact N2 |].
  - exact (proj1 (proj2 (proj2 (H1 N1)))).
  - exact (proj2 (proj2 (H2 N2))).
Defined.

Lemma disboard_message_without_confirmation_witness :
  run Demo.calm (on_message Demo.cfg DemoEdges.no_embed) (Demo.state "")
  = {| outcome := Err IndexError; final := Demo.state ""; trace := [] |}
  /\ run Demo.calm (on_message Demo.cfg DemoEdges.no_description) (Demo.state "")
     = {| outcome := Err TypeError; final := Demo.state ""; trace := [] |}
  /\ run Demo.calm (on_message Demo.cfg DemoEdges.wait_more) (Demo.state "")
     = {| outcome := Ok tt; final := Demo.state ""; trace := [] |}.
Proof.
  destruct (disboard_message_without_confirmation string Demo.cfg Demo.calm
              (Demo.state "") DemoEdges.no_embed eq_refl eq_refl eq_refl)
    as [H1 _].
  destruct (disboard_message_without_confirmation string Demo.cfg Demo.calm
              (Demo.state "") DemoEdges.no_description eq_refl eq_refl eq_refl)
    as [_ [H2 _]].
  destruct (disboard_message_without_confirmation string Demo.cfg Demo.calm
              (Demo.state "") DemoEdges.wait_more eq_refl eq_refl eq_refl)
    as [_ [_ H3]].
  split; [exact (H1 eq_refl) |]. split.
  - exact (H2 _ _ eq_refl eq_refl).
  - exact (H3 _ _ _ eq_refl eq_refl eq_refl).
Defined.

Lemma usage_string_words_witness :
  Usage.options_string DemoUsage.ban = "<member> [reason]"
  /\ PyStr.split (Usage.options_string DemoUsage.ban) = ["<member>"; "[reason]"].
Proof.
  assert (H : Forall (fun o => no_space (Usage.option_name o) = true)
                (Usage.command_options DemoUsage.ban)).
  { repeat constructor. }
  destruct (usage_string_words DemoUsage.ban H) as [Hs _].
  split; [reflexivity | exact Hs].
Defined.

Lemma select_callback_embed_spec_witness :
  Usage.select_callback_embed DemoEdges.cfg DemoUsage.cogs "bot.png" Demo.alice 0 []
  = Err IndexError
  /\ Usage.select_callback_embed DemoEdges.cfg DemoUsage.cogs "bot.png" Demo.alice 0
       ["GeneralCommands"] = Err AttributeError
  /\ Usage.select_callback_embed Demo.cfg DemoUsage.cogs "bot.png" Demo.alice 0
       ["ModerationCommands"] = Err AttributeError
  /\ Usage.select_callback_embed DemoEdges.cfg DemoUsage.cogs "bot.png" Demo.alice 0
       ["MiscellaneousCommands"] = Err AttributeError
  /\ Usage.select_callback_embed DemoEdges.cfg DemoUsage.cogs "bot.png" Demo.alice 0
       ["ModerationCommands"; "GeneralCommands"]
     = Ok {| Usage.help_description := "Moderation";
             Usage.help_color := 0;
             Usage.author_name := "iCODE Usage Help";
             Usage.author_icon := "bot.png";
             Usage.footer_text := "<Required> - [Optional]";
             Usage.footer_icon := "alice.png";
             Usage.thumbnail := "bot.png";
             Usage.fields :=
               map (Usage.command_field "<:reply:9>") [DemoUsage.ban] |}.
Proof.
  destruct (select_callback_embed_spec string DemoEdges.cfg DemoUsage.cogs
              "bot.png" Demo.alice 0 []) as [_ [H1 _]].
  destruct (select_callback_embed_spec string DemoEdges.cfg DemoUsage.cogs
              "bot.png" Demo.alice 0 ["GeneralCommands"]) as [_ [_ [H2 _]]].
  destruct (select_callback_embed_spec string Demo.cfg DemoUsage.cogs
              "bot.png" Demo.alice 0 ["ModerationCommands"]) as [_ [_ [H3 _]]].
  destruct (select_callback_embed_spec string DemoEdges.cfg DemoUsage.cogs
              "bot.png" Demo.alice 0 ["MiscellaneousCommands"]) as [_ [_ [H4 _]]].
  destruct (select_callback_embed_spec string DemoEdges.cfg DemoUsage.cogs
              "bot.png" Demo.alice 0 ["ModerationCommands"; "GeneralCommands"])
    as [H5 _].
  split; [apply H1; reflexivity |].
  split.
  { apply H2. exists "GeneralCommands", []. split; [reflexivity | now left]. }
  split.
  { apply H3. exists "ModerationCommands", []. split; [reflexivity |].
    right. exists DemoUsage.moderation. split; [reflexivity | now left]. }
  split.
  { apply H4. exists "MiscellaneousCommands", []. split; [reflexivity |].
    right. exists DemoUsage.miscellaneous. split; [reflexivity |].
    right. simpl. tauto. }
  apply H5.
  exists "ModerationCommands", ["GeneralCommands"], DemoUsage.moderation,
    "<:reply:9>", [DemoUsage.ban].
  repeat split.
Defined.

Lemma get_or_create_webhook_failures_witness :
  run Demo.no_listing (get_or_create_webhook Demo.cfg Demo.from_alice) (Demo.state "")
  = {| outcome := Err HTTPException; final := Demo.state "";
       trace := [(Demo.state "", ChannelWebhooks Demo.lobby)] |}
  /\ run DemoEdges.no_avatar (get_or_create_webhook Demo.cfg Demo.from_alice)
       (Demo.state "")
     = {| outcome := Err HTTPException; final := Demo.state "";
          trace := [(Demo.state "", ChannelWebhooks Demo.lobby);
                    (Demo.state "", AvatarRead "alice.png")] |}
  /\ run DemoEdges.no_creating (get_or_create_webhook Demo.cfg Demo.from_alice)
       (Demo.state "")
     = {| outcome := Err HTTPException; final := Demo.state "";
          trace := [(Demo.state "", ChannelWebhooks Demo.lobby);
                    (Demo.state "", AvatarRead "alice.png");
                    (Demo.state "",
                     CreateWebhook Demo.lobby "iCODE-BOT" "PNG"
                       "Animated Emoji Usage")] |}.
Proof.
  assert (Hnone : forall wh, In wh [Demo.foreign] ->
            webhook_user wh <> self_user_id Demo.cfg).
  { intros wh [<- | []]. discriminate. }
  destruct (get_or_create_webhook_failures string Demo.cfg Demo.no_listing
              (Demo.state "") Demo.from_alice) as [H1 _].
  destruct (get_or_create_webhook_failures string Demo.cfg DemoEdges.no_avatar
              (Demo.state "") Demo.from_alice) as [_ [H2 _]].
  destruct (get_or_create_webhook_failures string Demo.cfg DemoEdges.no_creating
              (Demo.state "") Demo.from_alice) as [_ [_ H3]].
  split; [exact (H1 HTTPException eq_refl) |]. split.
  - exact (H2 [Demo.foreign] HTTPException eq_refl Hnone eq_refl).
  - exact (H3 [Demo.foreign] "PNG" HTTPException eq_refl Hnone eq_refl eq_refl).
Defined.
